(** * poems-scrape: a shallow embedding of [scraper.py]

    The scraper walks the author index of a literary archive, collects the
    links that look like works of an author, decides for every work whether
    it is a single page or a sequence of parts, and extracts the text.

    Python strings are sequences of Unicode code points and are modelled as
    [list N].  The two collaborators that are not part of the repository,
    [requests] and [BeautifulSoup], are modelled by what the program observes
    of them: a page is the list of nodes each CSS selector yields together
    with the text of those nodes, and the network is a function from URLs to
    pages or failures.  Console output is not part of the model. *)

From Stdlib Require Import List NArith ZArith Bool Lia String Ascii.
Import ListNotations.

Set Implicit Arguments.

(** ** Python strings *)

Module PyStr.

Definition str := list N.

(** Decoder from the UTF-8 bytes of a literal to its code points; it is only
    used to write the string literals of the source. *)
Fixpoint utf8_go (bs : list N) (need : nat) (acc : N) : str :=
  match bs with
  | [] => []
  | b :: r =>
      match need with
      | O =>
          if (b <? 128)%N then b :: utf8_go r 0 0%N
          else if (b <? 224)%N then utf8_go r 1 (N.land b 31)
          else if (b <? 240)%N then utf8_go r 2 (N.land b 15)
          else utf8_go r 3 (N.land b 7)
      | S n =>
          let acc' := (acc * 64 + N.land b 63)%N in
          match n with
          | O => acc' :: utf8_go r 0 0%N
          | S _ => utf8_go r n acc'
          end
      end
  end.

Definition u (s : string) : str :=
  utf8_go (List.map N_of_ascii (list_ascii_of_string s)) 0 0%N.

Fixpoint str_eqb (a b : str) : bool :=
  match a, b with
  | [], [] => true
  | x :: a', y :: b' => (x =? y)%N && str_eqb a' b'
  | _, _ => false
  end.

(** [bool(s)] for a string: non-empty. *)
Definition nonempty (s : str) : bool :=
  match s with [] => false | _ :: _ => true end.

(** [s.startswith(p)] *)
Fixpoint startswith (s p : str) {struct p} : bool :=
  match p, s with
  | [], _ => true
  | _ :: _, [] => false
  | x :: p', y :: s' => (x =? y)%N && startswith s' p'
  end.

(** [needle in hay] *)
Fixpoint contains (needle hay : str) : bool :=
  startswith hay needle ||
  match hay with
  | [] => false
  | _ :: hay' => contains needle hay'
  end.

(** [str.isspace] on one code point: the white space of [strip()] and of
    [split()] without argument. *)
Definition isspace (c : N) : bool :=
  ((9 <=? c) && (c <=? 13) || (28 <=? c) && (c <=? 32) ||
   (c =? 133) || (c =? 160) || (c =? 5760) ||
   (8192 <=? c) && (c <=? 8202) ||
   (c =? 8232) || (c =? 8233) || (c =? 8239) || (c =? 8287) ||
   (c =? 12288))%N.

Fixpoint lstrip (s : str) : str :=
  match s with
  | [] => []
  | c :: r => if isspace c then lstrip r else s
  end.

Definition rstrip (s : str) : str := rev (lstrip (rev s)).

(** [s.strip()] *)
Definition strip (s : str) : str := rstrip (lstrip s).

(** [s.split()]: the maximal runs of non-space code points, in order. *)
Fixpoint split_ws_go (s cur : str) : list str :=
  match s with
  | [] => if nonempty cur then [cur] else []
  | c :: r =>
      if isspace c
      then (if nonempty cur then cur :: split_ws_go r [] else split_ws_go r [])
      else split_ws_go r (cur ++ [c])
  end.

Definition split_ws (s : str) : list str := split_ws_go s [].

(** [s.split(sep)] for a separator of one code point. *)
Fixpoint split_on_go (sep : N) (s cur : str) : list str :=
  match s with
  | [] => [cur]
  | c :: r =>
      if (c =? sep)%N then cur :: split_on_go sep r []
      else split_on_go sep r (cur ++ [c])
  end.

Definition split_on (sep : N) (s : str) : list str := split_on_go sep s [].

(** [s.replace(old, new)] for a non-empty [old]: occurrences are replaced
    from left to right and do not overlap.  [skip] counts the code points of
    an occurrence that were already consumed. *)
Fixpoint replace_go (old new s : str) (skip : nat) : str :=
  match s with
  | [] => []
  | c :: r =>
      match skip with
      | S k => replace_go old new r k
      | O =>
          if startswith s old
          then new ++ replace_go old new r (List.length old - 1)
          else c :: replace_go old new r 0
      end
  end.

Definition replace (old new s : str) : str := replace_go old new s 0.

(** [t in {w1, ..., wn}] *)
Definition mem (t : str) (ws : list str) : bool := existsb (str_eqb t) ws.

End PyStr.
Import PyStr.


(** ** Exceptions and the two monads

    A computation that may raise is a [result]; a computation that also
    talks to the network, sleeps or writes a file is an [io], which carries
    the events it performed up to its result or to the exception. *)

Inductive exn : Type :=
| IndexError | AttributeError | KeyError | RequestException | OSError
| ValueError | UnicodeEncodeError.

Inductive result (A : Type) : Type :=
| Ok (a : A)
| Raise (e : exn).
Arguments Raise {A} e.

Class Monad (m : Type -> Type) : Type :=
  { ret : forall {A}, A -> m A;
    bind : forall {A B}, m A -> (A -> m B) -> m B }.

Notation "x <- c ;; k" := (bind c (fun x => k))
  (at level 61, c at next level, right associativity).
Notation "' pat <- c ;; k" := (bind c (fun x => match x with pat => k end))
  (at level 61, pat pattern, c at next level, right associativity).
Notation "c ;; k" := (bind c (fun _ => k))
  (at level 61, right associativity).

#[export] Instance result_monad : Monad result :=
  { ret := fun A a => Ok a;
    bind := fun A B c k =>
      match c with
      | Ok a => k a
      | Raise e => Raise e
      end }.

(** Values the program builds and hands to [json.dump]: strings, lists and
    dicts with string keys, in insertion order. *)
#[warnings="-register-all"]
Inductive pyval : Type :=
| VStr (s : str)
| VList (l : list pyval)
| VDict (d : list (string * pyval)).

Definition dict := list (string * pyval).

(** What a run does to the outside: a retrieval was requested; a pause; a
    file was opened for writing, that is created or emptied; the opening
    raised and the file is as before; a record was written in full; the
    dump raised and the file is left incomplete. *)
Inductive event : Type :=
| EGet (url : str)
| ESleep
| EOpen (path : str)
| EOpenFailed (path : str)
| EWrite (path : str) (data : pyval)
| EPartial (path : str) (data : pyval).

Definition io (A : Type) : Type := (list event * result A)%type.

#[export] Instance io_monad : Monad io :=
  { ret := fun A a => ([], Ok a);
    bind := fun A B c k =>
      match c with
      | (t1, Ok a) => let (t2, r) := k a in (t1 ++ t2, r)
      | (t1, Raise e) => (t1, Raise e)
      end }.

Definition lift {A} (r : result A) : io A := ([], r).

Definition emit (e : event) : io unit := ([e], Ok tt).

(** ** Dicts and indexing *)

Fixpoint dict_get (k : string) (d : dict) : option pyval :=
  match d with
  | [] => None
  | (k', v) :: r => if String.eqb k' k then Some v else dict_get k r
  end.

Fixpoint dict_update (k : string) (v : pyval) (d : dict) : dict :=
  match d with
  | [] => []
  | (k', v') :: r =>
      if String.eqb k' k then (k', v) :: r else (k', v') :: dict_update k v r
  end.

(** [d[k]] *)
Definition getitem (k : string) (d : dict) : result pyval :=
  match dict_get k d with
  | Some v => Ok v
  | None => Raise KeyError
  end.

(** [d[k].append(x)]: the list stored under [k] is extended in place, so the
    change is seen through [d]. *)
Definition append_at (k : string) (x : pyval) (d : dict) : result dict :=
  v <- getitem k d ;;
  match v with
  | VList l => Ok (dict_update k (VList (l ++ [x])) d)
  | _ => Raise AttributeError
  end.

(** [l[0]] and [l[-1]] *)
Definition index_first {A} (l : list A) : result A :=
  match l with
  | [] => Raise IndexError
  | x :: _ => Ok x
  end.

Fixpoint index_last {A} (l : list A) : result A :=
  match l with
  | [] => Raise IndexError
  | [x] => Ok x
  | _ :: r => index_last r
  end.

(** [x or ""] for an [x] that is a string or [None] *)
Definition or_empty (x : option str) : str :=
  match x with
  | Some s => s
  | None => []
  end.

(** ** The parsed page, as the program observes it

    A [Tag] is a node of the document: its text as [get_text()] returns it,
    its text as [get_text("\n", strip=True)] returns it, and its attributes.
    A [BeautifulSoup] is the parsed document: the nodes a CSS selector
    yields, in document order, and the text of the whole document. *)

Record Tag : Type := mkTag
  { get_text : str;
    get_text_lines : str;
    get : str -> option str }.

Record BeautifulSoup : Type := mkSoup
  { select : str -> list Tag;
    soup_get_text_lines : str }.

(** [soup.select_one(sel)] is the first node of [soup.select(sel)] or
    [None]. *)
Definition select_one (soup : BeautifulSoup) (sel : str) : option Tag :=
  match select soup sel with
  | [] => None
  | t :: _ => Some t
  end.

(** [bool(block)] for the result of [select_one]: [None] is false, and a
    node is true whatever it contains. *)
Definition tag_truthy (block : option Tag) : bool :=
  match block with
  | Some _ => true
  | None => false
  end.

(** [block.get_text("\n", strip=True)] on the result of [select_one]: the
    method does not exist on [None]. *)
Definition call_get_text_lines (block : option Tag) : result str :=
  match block with
  | Some t => Ok (get_text_lines t)
  | None => Raise AttributeError
  end.

(** ** Constants of the source *)

Definition BASE_URL : str := u "https://kavitakosh.org".
Definition INDEX_URL : str := BASE_URL ++ u "/kk/रचनाकारों_की_सूची".
Definition SAVE_DIR : str := u "new/poets".

Definition SKIP_LINK_WORDS : list str :=
  [ u "पृष्ठ"; u "स्रोत देखें"; u "इतिहास"; u "चर्चा";
    u "लॉग इन"; u "लॉगिन"; u "कविता कोश खोज"; u "ई-पत्रिकाएँ";
    u "ई-पुस्तकें"; u "विधाएँ"; u "विषय"; u "फ़िल्मी गीत";
    u "फ़िल्मी गीत"; u "अनुवाद"; u "श्रेणी"; u "मुखपृष्ठ";
    u "विदेशी"; u "कविता कोश"; u "महत्त्वपूर्ण कड़ियाँ";
    u "नए जुड़े पन्नों की सूची"; u "अन्य भाषाएँ";
    u "टाइपिंग टूल्स"; u "गद्य कोश"; u "रचनाकारों की सूची" ].

Definition LANG_WORDS : list str :=
  [ u "हिन्दी"; u "हिन्दी / उर्दू"; u "उर्दू"; u "भोजपुरी";
    u "मैथिली"; u "राजस्थानी"; u "अंगिका"; u "अवधी"; u "नेपाली";
    u "हरियाणवी"; u "ब्रज भाषा"; u "संस्कृतम्"; u "छत्तीसगढ़ी";
    u "सिन्धी"; u "मराठी"; u "गुजराती"; u "पालि"; u "गढ़वाली" ].

Definition KK : str := u "/kk/".
Definition CATEGORY_NS : str := u "/kk/श्रेणी:".
Definition TALK_NS : str := u "/kk/वार्ता:".
Definition CONTENT_ANCHORS : str := u "#mw-content-text a".
Definition SLASH : N := 47%N.
Definition DQUOTE : str := [34%N].

(** ** Pure helpers of the source *)

Definition is_navigation_text (text : str) : bool :=
  if negb (nonempty text) then true
  else
    let t := strip text in
    if mem t SKIP_LINK_WORDS || mem t LANG_WORDS then true
    else if existsb (fun sym => contains sym t) [u "..."; u "|"] then true
    else false.

Definition normalize_poet_name (name : str) : str :=
  strip (replace (u "''") DQUOTE
          (replace (u "”") DQUOTE
            (replace (u "“") DQUOTE name))).

(** The loop of [get_poet_list]; [poets] is the list built so far. *)
Fixpoint poets_loop (limit : Z) (anchors : list Tag) (poets : list (str * str))
  : list (str * str) :=
  match anchors with
  | [] => poets
  | a :: rest =>
      let name := strip (or_empty (Some (get_text a))) in
      let href := or_empty (get a (u "href")) in
      if negb (startswith href KK) then poets_loop limit rest poets
      else if is_navigation_text name then poets_loop limit rest poets
      else if startswith href CATEGORY_NS || startswith href TALK_NS
      then poets_loop limit rest poets
      else
        let full_url := BASE_URL ++ href in
        let poets' := poets ++ [(name, full_url)] in
        if (Z.of_nat (List.length poets') >=? limit)%Z then poets'
        else poets_loop limit rest poets'
  end.

(** The loop of [get_poet_works]. *)
Fixpoint works_loop (main_name_token norm_poet : str) (anchors : list Tag)
  (works : list (str * str)) : result (list (str * str)) :=
  match anchors with
  | [] => Ok works
  | a :: rest =>
      let text := strip (or_empty (Some (get_text a))) in
      let href := or_empty (get a (u "href")) in
      if negb (startswith href KK)
      then works_loop main_name_token norm_poet rest works
      else if is_navigation_text text
      then works_loop main_name_token norm_poet rest works
      else if negb (contains (u " / ") text)
      then works_loop main_name_token norm_poet rest works
      else
        last <- index_last (split_on SLASH text) ;;
        let last_part := strip last in
        if negb (contains main_name_token last_part)
           && negb (contains norm_poet last_part)
        then works_loop main_name_token norm_poet rest works
        else
          let full_url := BASE_URL ++ href in
          works_loop main_name_token norm_poet rest (works ++ [(text, full_url)])
  end.

(** The loop of [get_work_parts]. *)
Fixpoint parts_loop (main_name_token norm_poet : str) (anchors : list Tag)
  (parts : list (str * str)) : result (list (str * str)) :=
  match anchors with
  | [] => Ok parts
  | a :: rest =>
      let text := strip (or_empty (Some (get_text a))) in
      let href := or_empty (get a (u "href")) in
      if negb (startswith href KK)
      then parts_loop main_name_token norm_poet rest parts
      else if is_navigation_text text
      then parts_loop main_name_token norm_poet rest parts
      else if negb (contains (u " / ") text)
      then parts_loop main_name_token norm_poet rest parts
      else
        last <- index_last (split_on SLASH text) ;;
        let last_part := strip last in
        if negb (contains main_name_token last_part)
           && negb (contains norm_poet last_part)
        then parts_loop main_name_token norm_poet rest parts
        else
          let full_url := BASE_URL ++ href in
          parts_loop main_name_token norm_poet rest (parts ++ [(text, full_url)])
  end.

(** The selector loop of [extract_poem_text]; [None] means that the loop
    ended without a [return]. *)
Fixpoint poem_selectors_loop (soup : BeautifulSoup) (selectors : list str)
  : result (option str) :=
  match selectors with
  | [] => Ok None
  | selector :: rest =>
      let block := select_one soup selector in
      if tag_truthy block then
        text <- call_get_text_lines block ;;
        if nonempty text then Ok (Some text)
        else poem_selectors_loop soup rest
      else poem_selectors_loop soup rest
  end.

Definition extract_poem_text (soup : BeautifulSoup) : result str :=
  found <- poem_selectors_loop soup
             [u ".poem"; u "#poem"; u "div.mw-content-ltr"] ;;
  match found with
  | Some text => Ok text
  | None =>
      let content := select_one soup (u "#mw-content-text") in
      if tag_truthy content then call_get_text_lines content
      else Ok (soup_get_text_lines soup)
  end.

(** ** The outside world and the effectful functions

    [http_get] is what [requests.get] followed by the parser yields for a
    URL, or the exception the request raises.  [file_open] is the outcome of
    opening a path for writing, which creates or empties the file, and
    [json_dump] the outcome of dumping a record into the file just opened
    and closing it; each succeeds or raises an exception of its own, and a
    dump that raises leaves an incomplete file behind. *)

Record World : Type := mkWorld
  { http_get : str -> result BeautifulSoup;
    file_open : str -> result unit;
    json_dump : str -> pyval -> result unit }.

(** [os.path.join(a, b)] of [posixpath], for an [a] that is not empty and
    does not end in a slash. *)
Definition path_join (a b : str) : str :=
  if startswith b (u "/") then b else a ++ u "/" ++ b.

Section Scraper.

Variable W : World.

Definition sleep_polite : io unit := emit ESleep.

Definition get_soup (url : str) : io BeautifulSoup :=
  ([EGet url], http_get W url).

(** [open(path, "w", encoding="utf-8")] *)
Definition open_w (path : str) : io unit :=
  match file_open W path with
  | Ok _ => ([EOpen path], Ok tt)
  | Raise e => ([EOpenFailed path], Raise e)
  end.

(** [json.dump(data, f, ensure_ascii=False, indent=2)] into the file opened
    at [path], up to the end of the [with] block. *)
Definition dump_json (path : str) (data : pyval) : io unit :=
  match json_dump W path data with
  | Ok _ => ([EWrite path data], Ok tt)
  | Raise e => ([EPartial path data], Raise e)
  end.

Definition get_poet_list (limit : Z) : io (list (str * str)) :=
  soup <- get_soup INDEX_URL ;;
  ret (poets_loop limit (select soup CONTENT_ANCHORS) []).

Definition get_poet_works (poet_name poet_url : str) : io (list (str * str)) :=
  soup <- get_soup poet_url ;;
  let norm_poet := normalize_poet_name poet_name in
  main_name_token <- lift (index_first (split_ws norm_poet)) ;;
  lift (works_loop main_name_token norm_poet (select soup CONTENT_ANCHORS) []).

Definition get_work_parts (poet_name work_url : str)
  : io (list (str * str) * BeautifulSoup) :=
  soup <- get_soup work_url ;;
  let norm_poet := normalize_poet_name poet_name in
  main_name_token <- lift (index_first (split_ws norm_poet)) ;;
  parts <- lift (parts_loop main_name_token norm_poet
                   (select soup CONTENT_ANCHORS) []) ;;
  ret (parts, soup).

(** The loop over the parts in [scrape_work]. *)
Fixpoint scrape_parts_loop (parts : list (str * str)) (work_obj : dict)
  : io dict :=
  match parts with
  | [] => ret work_obj
  | (part_title, part_url) :: rest =>
      psoup <- get_soup part_url ;;
      content <- lift (extract_poem_text psoup) ;;
      work_obj' <- lift (append_at "parts"
                           (VDict [("title"%string, VStr part_title);
                                   ("content"%string, VStr content)])
                           work_obj) ;;
      sleep_polite ;;
      scrape_parts_loop rest work_obj'
  end.

Definition scrape_work (poet_name work_title work_url : str) : io dict :=
  ' (parts, soup) <- get_work_parts poet_name work_url ;;
  match parts with
  | _ :: _ =>
      let work_obj := [("title"%string, VStr work_title);
                       ("type"%string, VStr (u "multipart"));
                       ("parts"%string, VList [])] in
      scrape_parts_loop parts work_obj
  | [] =>
      content <- lift (extract_poem_text soup) ;;
      ret [("title"%string, VStr work_title);
           ("type"%string, VStr (u "single"));
           ("content"%string, VStr content)]
  end.

(** The loop over the works in [scrape_poet]. *)
Fixpoint scrape_works_loop (poet_name : str) (works_meta : list (str * str))
  (poet_data : dict) : io dict :=
  match works_meta with
  | [] => ret poet_data
  | (title, url) :: rest =>
      work_obj <- scrape_work poet_name title url ;;
      poet_data' <- lift (append_at "works" (VDict work_obj) poet_data) ;;
      sleep_polite ;;
      scrape_works_loop poet_name rest poet_data'
  end.

Definition scrape_poet (poet_name poet_url : str) : io unit :=
  works_meta <- get_poet_works poet_name poet_url ;;
  let poet_data := [("poet"%string, VStr poet_name);
                    ("works"%string, VList [])] in
  poet_data' <- scrape_works_loop poet_name works_meta poet_data ;;
  let out_path := path_join SAVE_DIR (poet_name ++ u ".json") in
  open_w out_path ;;
  dump_json out_path (VDict poet_data').

(** The loop of [main]. *)
Fixpoint main_loop (poets : list (str * str)) : io unit :=
  match poets with
  | [] => ret tt
  | (poet_name, poet_url) :: rest =>
      scrape_poet poet_name poet_url ;;
      sleep_polite ;;
      main_loop rest
  end.

Definition main : io unit :=
  poets <- get_poet_list 3140 ;;
  main_loop poets.

End Scraper.

(** ** Vocabulary of the statements *)

(** What the three link loops read off an anchor. *)
Definition link_text (a : Tag) : str := strip (or_empty (Some (get_text a))).
Definition link_href (a : Tag) : str := or_empty (get a (u "href")).
Definition link_entry (a : Tag) : str * str :=
  (link_text a, BASE_URL ++ link_href a).

(** The filter that precedes the work pattern in [get_poet_works] and
    [get_work_parts]: article prefix and navigation text. *)
Definition passes_classifier (a : Tag) : bool :=
  startswith (link_href a) KK && negb (is_navigation_text (link_text a)).

(** The href targets the category or the talk namespace. *)
Definition in_meta_namespace (href : str) : bool :=
  startswith href CATEGORY_NS || startswith href TALK_NS.

(** The trimmed text after the last slash, and the test both link loops
    apply to an anchor, as one boolean. *)
Definition last_part_of (text : str) : str :=
  match index_last (split_on SLASH text) with
  | Ok last => strip last
  | Raise _ => []
  end.

(** The "Title / Poet" test of the two loops on a link text. *)
Definition matches_pattern (main_name_token norm_poet text : str) : bool :=
  contains (u " / ") text &&
  (contains main_name_token (last_part_of text) ||
   contains norm_poet (last_part_of text)).

Definition accepts (main_name_token norm_poet : str) (a : Tag) : bool :=
  passes_classifier a && matches_pattern main_name_token norm_poet (link_text a).

(** The owner name is empty or consists of white space only. *)
Definition is_blank (s : str) : bool := forallb isspace s.

Definition has_nonspace (s : str) : bool :=
  existsb (fun c => negb (isspace c)) s.

(** [needle] occurs in [hay] as a contiguous substring. *)
Definition Substring (needle hay : str) : Prop :=
  exists pre post, hay = pre ++ needle ++ post.

(** [tail] is what follows the last slash of [text]; a text without a slash
    is its own tail. *)
Definition AfterLastSlash (text tail : str) : Prop :=
  (~ In SLASH text /\ tail = text) \/
  (exists pre, text = pre ++ SLASH :: tail /\ ~ In SLASH tail).

(** The work pattern in the words of the specification: the text contains
    the separator, and what follows its last slash, trimmed, contains the
    first token of the normalized owner name or the whole normalized name. *)
Definition MatchesWork (text ownerName : str) : Prop :=
  Substring (u " / ") text /\
  exists tail,
    AfterLastSlash text tail /\
    ((exists tok,
        index_first (split_ws (normalize_poet_name ownerName)) = Ok tok /\
        Substring tok (strip tail)) \/
     Substring (normalize_poet_name ownerName) (strip tail)).

(** The text of the first node of a selector, when that node exists and its
    text is not empty. *)
Definition region_text (soup : BeautifulSoup) (sel : str) : option str :=
  match select_one soup sel with
  | Some t => if nonempty (get_text_lines t) then Some (get_text_lines t) else None
  | None => None
  end.

(** The cascade of the content extractor, case by case. *)
Definition cascade (soup : BeautifulSoup) : str :=
  match region_text soup (u ".poem") with
  | Some t => t
  | None =>
  match region_text soup (u "#poem") with
  | Some t => t
  | None =>
  match region_text soup (u "div.mw-content-ltr") with
  | Some t => t
  | None =>
  match select_one soup (u "#mw-content-text") with
  | Some content => get_text_lines content
  | None => soup_get_text_lines soup
  end end end end.

(** The record of a single work, of a part and of a multipart work. *)
Definition single_record (title content : str) : dict :=
  [("title"%string, VStr title);
   ("type"%string, VStr (u "single"));
   ("content"%string, VStr content)].

Definition part_record (title content : str) : pyval :=
  VDict [("title"%string, VStr title); ("content"%string, VStr content)].

Definition multipart_record (title : str) (parts : list pyval) : dict :=
  [("title"%string, VStr title);
   ("type"%string, VStr (u "multipart"));
   ("parts"%string, VList parts)].

(** [r] is the record of the part [p]: its title, and the extracted text of
    the page behind its URL. *)
Definition PartOf (W : World) (p : str * str) (r : pyval) : Prop :=
  exists psoup content,
    http_get W (snd p) = Ok psoup /\
    extract_poem_text psoup = Ok content /\
    r = part_record (fst p) content.

(** The invariant of the data model on a work record. *)
Definition well_formed_work (w : dict) : Prop :=
  (dict_get "type" w = Some (VStr (u "single")) /\
   exists content, dict_get "content" w = Some (VStr content)) \/
  (dict_get "type" w = Some (VStr (u "multipart")) /\
   exists p ps, dict_get "parts" w = Some (VList (p :: ps))).

(** The URL of a retrieval lies under the article prefix of the site. *)
Definition ARTICLE_PREFIX : str := u "https://kavitakosh.org/kk/".

Definition article_url (url : str) : Prop := startswith url ARTICLE_PREFIX = true.

Definition fetches_articles (e : event) : Prop :=
  match e with
  | EGet url => article_url url
  | _ => True
  end.

(** The events of fetching the parts one after the other. *)
Definition part_events (parts : list (str * str)) : list event :=
  flat_map (fun p => [EGet (snd p); ESleep]) parts.

(** ** Small sites for the concrete runs *)

Definition anchor (text href : str) : Tag :=
  mkTag text text (fun k => if str_eqb k (u "href") then Some href else None).

Definition block (text : str) : Tag :=
  mkTag text text (fun _ => None).

Fixpoint lookup {A} (k : str) (l : list (str * A)) : option A :=
  match l with
  | [] => None
  | (k', v) :: r => if str_eqb k' k then Some v else lookup k r
  end.

(** A page given by its content anchors, the nodes of its other selectors
    and its whole text. *)
Definition page (anchors : list Tag) (regions : list (str * Tag)) (whole : str)
  : BeautifulSoup :=
  mkSoup (fun sel =>
            if str_eqb sel CONTENT_ANCHORS then anchors
            else match lookup sel regions with
                 | Some t => [t]
                 | None => []
                 end)
         whole.

(** A site given by its pages; any other URL fails, and every file can be
    written. *)
Definition site (pages : list (str * BeautifulSoup)) : World :=
  mkWorld (fun url => match lookup url pages with
                      | Some soup => Ok soup
                      | None => Raise RequestException
                      end)
          (fun _ => Ok tt)
          (fun _ _ => Ok tt).

Definition mahadevi : str := u "महादेवी वर्मा".
Definition poet_page_url : str := u "https://kavitakosh.org/kk/महादेवी_वर्मा".
Definition work_url : str := u "https://kavitakosh.org/kk/आँसू".
Definition part1_url : str := u "https://kavitakosh.org/kk/आँसू_1".
Definition part2_url : str := u "https://kavitakosh.org/kk/आँसू_2".

(** A work page without links and with a poem container. *)
Definition single_page : BeautifulSoup :=
  page [] [(u ".poem", block (u "पंक्ति"))] (u "सब कुछ").

(** A work page that links to two parts. *)
Definition part1_link : Tag := anchor (u "भाग 1 / महादेवी वर्मा") (u "/kk/आँसू_1").
Definition part2_link : Tag := anchor (u "भाग 2 / महादेवी वर्मा") (u "/kk/आँसू_2").

Definition multi_page : BeautifulSoup :=
  page [part1_link; part2_link] [] (u "सूची").

Definition part1_page : BeautifulSoup :=
  page [] [(u "#poem", block (u "पहला"))] (u "x").

Definition part2_page : BeautifulSoup :=
  page [] [(u "#mw-content-text", block (u "दूसरा"))] (u "y").

Definition single_site : World := site [(work_url, single_page)].

Definition multi_site : World :=
  site [(work_url, multi_page); (part1_url, part1_page); (part2_url, part2_page)].

(** A poet page with one link whose text follows the work pattern and whose
    target is a category page. *)
Definition category_link : Tag :=
  anchor (u "आँसू / महादेवी वर्मा") (u "/kk/श्रेणी:कविता").

(** A poet page whose only link is a language label. *)
Definition urdu : str := u "उर्दू".

Definition language_link : Tag := anchor (u "हिन्दी / उर्दू") (u "/kk/हिन्दी_उर्दू").

Definition language_site : World :=
  site [(poet_page_url, page [language_link] [] (u "x"))].

Definition category_site : World :=
  site [(poet_page_url, page [category_link] [] (u "x"))].

(** An author index with a navigation link, a category link, a link that
    leaves the site and one author. *)
Definition index_page : BeautifulSoup :=
  page [anchor (u "मुखपृष्ठ") (u "/kk/मुखपृष्ठ");
        anchor (u "कवि") (u "/kk/श्रेणी:कवि");
        anchor (u "बाहर") (u "https://example.com/");
        anchor (u "महादेवी वर्मा") (u "/kk/महादेवी_वर्मा")]
       [] (u "x").

Definition work_link : Tag := anchor (u "आँसू / महादेवी वर्मा") (u "/kk/आँसू").

Definition poet_page : BeautifulSoup := page [work_link] [] (u "x").

Definition outside_link : Tag := anchor (u "बाहर / महादेवी वर्मा") (u "https://example.com/").

Definition index_site : World :=
  site [(INDEX_URL, index_page);
        (poet_page_url, poet_page);
        (work_url, multi_page);
        (part1_url, part1_page);
        (part2_url, part2_page)].

(** A page whose main content region exists and is empty, while the page as
    a whole has text. *)
Definition empty_content_page : BeautifulSoup :=
  page [] [(u "#mw-content-text", block [])] (u "मुखपृष्ठ").

(** ** Vocabulary of the further properties *)

(** The test of the loop of [get_poet_list] on an anchor, as one boolean. *)
Definition index_candidate (a : Tag) : bool :=
  startswith (link_href a) KK
  && negb (is_navigation_text (link_text a))
  && negb (in_meta_namespace (link_href a)).

(** The record of an author and the path of its file. *)
Definition poet_record (name : str) (works : list pyval) : dict :=
  [("poet"%string, VStr name); ("works"%string, VList works)].

Definition out_path (poet_name : str) : str :=
  path_join SAVE_DIR (poet_name ++ u ".json").

(** The file writes of a trace, in order. *)
Definition writes (tr : list event) : list (str * pyval) :=
  flat_map (fun e => match e with
                     | EWrite path data => [(path, data)]
                     | _ => []
                     end) tr.

(** The files a trace created or emptied, in order. *)
Definition opened (tr : list event) : list str :=
  flat_map (fun e => match e with
                     | EOpen path => [path]
                     | _ => []
                     end) tr.

(** The event does not concern a file. *)
Definition no_file_event (e : event) : Prop :=
  match e with
  | EGet _ | ESleep => True
  | _ => False
  end.



(** [v] is the record [scrape_work] returns for the work entry [m]. *)
Definition WorkOf (W : World) (poet_name : str) (m : str * str) (v : pyval)
  : Prop :=
  exists w, snd (scrape_work W poet_name (fst m) (snd m)) = Ok w /\ v = VDict w.

(** A denylisted label, checked as the source checks it. *)
Definition denylisted (w : str) : bool :=
  mem w SKIP_LINK_WORDS || mem w LANG_WORDS.

Definition all_nonspace (s : str) : bool :=
  forallb (fun c => negb (isspace c)) s.

(** The doubled straight apostrophe that normalization replaces. *)
Definition apostrophes : str := [39%N; 39%N].


Definition broken_part_site : World :=
  site [(work_url, multi_page); (part1_url, part1_page)].



(** * Properties *)

(** ** Strings *)

Section StringFacts.

Lemma startswith_iff (s p : str) :
  startswith s p = true <-> exists r, s = p ++ r.
Proof.
  revert s; induction p as [|x p IH]; intros s; simpl.
  - split; [intros _; now exists s | reflexivity].
  - destruct s as [|y s].
    + split; [discriminate | intros [r Hr]; discriminate].
    + rewrite andb_true_iff, N.eqb_eq, IH. split.
      * intros [-> [r ->]]. now exists r.
      * intros [r Hr]. injection Hr as -> ->. split; [reflexivity | now exists r].
Qed.

Lemma startswith_app (p s q : str) :
  startswith (p ++ s) (p ++ q) = startswith s q.
Proof.
  induction p as [|x p IH]; simpl; [reflexivity|].
  now rewrite N.eqb_refl, IH.
Qed.

Lemma contains_unfold (needle hay : str) :
  contains needle hay =
  startswith hay needle ||
  match hay with [] => false | _ :: hay' => contains needle hay' end.
Proof. destruct hay; reflexivity. Qed.

Lemma contains_iff (needle hay : str) :
  contains needle hay = true <-> Substring needle hay.
Proof.
  unfold Substring. split.
  - induction hay as [|c hay IH]; rewrite contains_unfold, orb_true_iff.
    + intros [H|H]; [|discriminate].
      apply startswith_iff in H as [r Hr]. now exists [], r.
    + intros [H|H].
      * apply startswith_iff in H as [r Hr]. now exists [], r.
      * destruct (IH H) as (pre & post & ->). now exists (c :: pre), post.
  - intros (pre & post & ->).
    induction pre as [|c pre IH]; rewrite contains_unfold, orb_true_iff.
    + left. apply startswith_iff. now exists post.
    + right. exact IH.
Qed.

Lemma index_last_cons {A} (x : A) (l : list A) (t : A) :
  index_last l = Ok t -> index_last (x :: l) = Ok t.
Proof. destruct l; [discriminate | intros H; exact H]. Qed.

Lemma split_on_go_last (sep : N) (s cur : str) :
  exists tail,
    index_last (split_on_go sep s cur) = Ok tail /\
    ((~ In sep s /\ tail = cur ++ s) \/
     (exists pre, s = pre ++ sep :: tail /\ ~ In sep tail)).
Proof.
  revert cur; induction s as [|c r IH]; intros cur; simpl.
  - exists cur. split; [reflexivity|]. left. split; [tauto | now rewrite app_nil_r].
  - destruct (N.eqb_spec c sep) as [->|Hne].
    + destruct (IH []) as (tail & Hl & [[Hn ->]|(pre & -> & Hn)]).
      * exists r. split; [now apply index_last_cons|].
        right. now exists [].
      * exists tail. split; [now apply index_last_cons|].
        right. now exists (sep :: pre).
    + destruct (IH (cur ++ [c])) as (tail & Hl & [[Hn ->]|(pre & -> & Hn)]).
      * exists ((cur ++ [c]) ++ r). split; [exact Hl|]. left. split.
        -- intros [E|E]; [congruence | tauto].
        -- now rewrite <- app_assoc.
      * exists tail. split; [exact Hl|]. right. now exists (c :: pre).
Qed.

Lemma after_last_unique_aux (sep : N) (p1 p2 t1 t2 : str) :
  p1 ++ sep :: t1 = p2 ++ sep :: t2 -> ~ In sep t1 -> ~ In sep t2 -> t1 = t2.
Proof.
  revert p2; induction p1 as [|x p1 IH]; intros [|y p2] E H1 H2; simpl in E.
  - now injection E.
  - injection E as _ E. exfalso. apply H1. rewrite E. apply in_or_app. right. now left.
  - injection E as _ E. exfalso. apply H2. rewrite <- E. apply in_or_app. right. now left.
  - injection E as _ E. eauto.
Qed.

Lemma AfterLastSlash_unique (text t1 t2 : str) :
  AfterLastSlash text t1 -> AfterLastSlash text t2 -> t1 = t2.
Proof.
  intros [[N1 ->]|(p1 & E1 & N1)] [[N2 ->]|(p2 & E2 & N2)].
  - reflexivity.
  - exfalso. apply N1. rewrite E2. apply in_or_app. right. now left.
  - exfalso. apply N2. rewrite E1. apply in_or_app. right. now left.
  - rewrite E1 in E2. eapply after_last_unique_aux; eauto.
Qed.

Lemma split_on_last (text : str) :
  exists tail,
    index_last (split_on SLASH text) = Ok tail /\ AfterLastSlash text tail.
Proof.
  destruct (split_on_go_last SLASH text []) as (tail & Hl & H).
  exists tail. split; [exact Hl|]. exact H.
Qed.

Lemma last_part_of_spec (text tail : str) :
  AfterLastSlash text tail -> last_part_of text = strip tail.
Proof.
  intros H. unfold last_part_of.
  destruct (split_on_last text) as (t & -> & Ht).
  now rewrite (AfterLastSlash_unique Ht H).
Qed.

(** White space and blank names *)

Lemma lstrip_blank (s : str) : is_blank s = true -> lstrip s = [].
Proof.
  induction s as [|c r IH]; simpl; [reflexivity|].
  rewrite andb_true_iff. intros [-> H]. auto.
Qed.

Lemma strip_blank (s : str) : is_blank s = true -> strip s = [].
Proof. intros H. unfold strip. now rewrite (lstrip_blank _ H). Qed.

Lemma replace_blank (o : N) (old new s : str) :
  isspace o = false -> is_blank s = true -> replace (o :: old) new s = s.
Proof.
  intros Ho. unfold replace. induction s as [|c r IH]; simpl; [reflexivity|].
  rewrite andb_true_iff. intros [Hc Hr].
  destruct (N.eqb_spec o c) as [->|_]; [congruence|].
  simpl. now rewrite (IH Hr).
Qed.

Lemma normalize_blank (name : str) :
  is_blank name = true -> normalize_poet_name name = [].
Proof.
  intros H. unfold normalize_poet_name.
  change (u "“") with [8220%N]; change (u "”") with [8221%N];
    change (u "''") with [39%N; 39%N].
  rewrite (@replace_blank 8220 [] DQUOTE name), (@replace_blank 8221 [] DQUOTE name),
    (@replace_blank 39 [39%N] DQUOTE name); auto using strip_blank.
Qed.

Lemma has_nonspace_of_not_blank (s : str) :
  is_blank s = false -> has_nonspace s = true.
Proof.
  induction s as [|c r IH]; simpl; [discriminate|].
  destruct (isspace c); simpl; auto.
Qed.

Lemma has_nonspace_app (s t : str) :
  has_nonspace (s ++ t) = has_nonspace s || has_nonspace t.
Proof. apply existsb_app. Qed.

Lemma has_nonspace_rev (s : str) : has_nonspace (rev s) = has_nonspace s.
Proof.
  induction s as [|c r IH]; simpl; [reflexivity|].
  rewrite has_nonspace_app, IH. simpl. now rewrite orb_false_r, orb_comm.
Qed.

Lemma has_nonspace_lstrip (s : str) : has_nonspace (lstrip s) = has_nonspace s.
Proof.
  induction s as [|c r IH]; simpl; [reflexivity|].
  destruct (isspace c) eqn:E; simpl; [exact IH | now rewrite E].
Qed.

Lemma has_nonspace_strip (s : str) : has_nonspace (strip s) = has_nonspace s.
Proof.
  unfold strip, rstrip.
  now rewrite has_nonspace_rev, has_nonspace_lstrip, has_nonspace_rev,
    has_nonspace_lstrip.
Qed.

Lemma has_nonspace_replace (old new s : str) :
  has_nonspace new = true -> has_nonspace s = true ->
  has_nonspace (replace old new s) = true.
Proof.
  intros Hn. unfold replace. induction s as [|c r IH]; simpl; [discriminate|].
  destruct (startswith (c :: r) old).
  - intros _. rewrite has_nonspace_app, Hn. reflexivity.
  - simpl. destruct (isspace c); simpl; auto.
Qed.

Lemma has_nonspace_normalize (name : str) :
  has_nonspace name = true -> has_nonspace (normalize_poet_name name) = true.
Proof.
  intros H. unfold normalize_poet_name.
  rewrite has_nonspace_strip.
  repeat apply has_nonspace_replace; auto.
Qed.

Lemma split_ws_go_nonempty (s cur : str) :
  nonempty cur = true \/ has_nonspace s = true ->
  exists tok rest, split_ws_go s cur = tok :: rest.
Proof.
  revert cur; induction s as [|c r IH]; intros cur H; simpl.
  - destruct H as [H|H]; [|discriminate]. rewrite H. eauto.
  - simpl in H. destruct (isspace c); simpl in H.
    + destruct (nonempty cur) eqn:E; [eauto|].
      apply IH. destruct H as [H|H]; [discriminate | now right].
    + apply IH. left. now destruct cur.
Qed.

Lemma first_token_exists (name : str) :
  is_blank name = false ->
  exists tok, index_first (split_ws (normalize_poet_name name)) = Ok tok.
Proof.
  intros H. apply has_nonspace_of_not_blank, has_nonspace_normalize in H.
  destruct (@split_ws_go_nonempty (normalize_poet_name name) [] (or_intror H))
    as (tok & rest & E).
  exists tok. unfold split_ws. now rewrite E.
Qed.

Lemma first_token_blank (name : str) :
  is_blank name = true ->
  index_first (split_ws (normalize_poet_name name)) = Raise IndexError.
Proof. intros H. now rewrite (normalize_blank _ H). Qed.

End StringFacts.

(** ** The link loops *)

Section LinkLoops.

Variables main_name_token norm_poet : str.

Lemma works_loop_cons (a : Tag) (rest : list Tag) (works : list (str * str)) :
  works_loop main_name_token norm_poet (a :: rest) works =
  works_loop main_name_token norm_poet rest
    (if accepts main_name_token norm_poet a then works ++ [link_entry a] else works).
Proof.
  cbn [works_loop].
  unfold accepts, matches_pattern, passes_classifier, last_part_of, link_entry.
  change (strip (or_empty (Some (get_text a)))) with (link_text a).
  change (or_empty (get a (u "href"))) with (link_href a).
  destruct (startswith (link_href a) KK); [|reflexivity].
  destruct (is_navigation_text (link_text a)); [reflexivity|].
  destruct (contains (u " / ") (link_text a)); [|reflexivity].
  destruct (split_on_last (link_text a)) as (tail & -> & _).
  cbn [bind result_monad negb andb].
  destruct (contains main_name_token (strip tail));
    destruct (contains norm_poet (strip tail)); reflexivity.
Qed.

Lemma parts_loop_cons (a : Tag) (rest : list Tag) (parts : list (str * str)) :
  parts_loop main_name_token norm_poet (a :: rest) parts =
  parts_loop main_name_token norm_poet rest
    (if accepts main_name_token norm_poet a then parts ++ [link_entry a] else parts).
Proof.
  cbn [parts_loop].
  unfold accepts, matches_pattern, passes_classifier, last_part_of, link_entry.
  change (strip (or_empty (Some (get_text a)))) with (link_text a).
  change (or_empty (get a (u "href"))) with (link_href a).
  destruct (startswith (link_href a) KK); [|reflexivity].
  destruct (is_navigation_text (link_text a)); [reflexivity|].
  destruct (contains (u " / ") (link_text a)); [|reflexivity].
  destruct (split_on_last (link_text a)) as (tail & -> & _).
  cbn [bind result_monad negb andb].
  destruct (contains main_name_token (strip tail));
    destruct (contains norm_poet (strip tail)); reflexivity.
Qed.

Lemma works_loop_filter (anchors : list Tag) (works : list (str * str)) :
  works_loop main_name_token norm_poet anchors works =
  Ok (works ++ map link_entry (filter (accepts main_name_token norm_poet) anchors)).
Proof.
  revert works; induction anchors as [|a rest IH]; intros works.
  - simpl. now rewrite app_nil_r.
  - rewrite works_loop_cons, IH. cbn [filter].
    destruct (accepts main_name_token norm_poet a); [|reflexivity].
    cbn [map]. now rewrite <- app_assoc.
Qed.

Lemma parts_loop_filter (anchors : list Tag) (parts : list (str * str)) :
  parts_loop main_name_token norm_poet anchors parts =
  Ok (parts ++ map link_entry (filter (accepts main_name_token norm_poet) anchors)).
Proof.
  revert parts; induction anchors as [|a rest IH]; intros parts.
  - simpl. now rewrite app_nil_r.
  - rewrite parts_loop_cons, IH. cbn [filter].
    destruct (accepts main_name_token norm_poet a); [|reflexivity].
    cbn [map]. now rewrite <- app_assoc.
Qed.

Lemma accepts_article (a : Tag) :
  accepts main_name_token norm_poet a = true -> startswith (link_href a) KK = true.
Proof.
  unfold accepts, passes_classifier. rewrite !andb_true_iff. tauto.
Qed.

Lemma accepts_same_text (a b : Tag) :
  link_text a = link_text b ->
  passes_classifier b = true ->
  accepts main_name_token norm_poet a = true ->
  accepts main_name_token norm_poet b = true.
Proof.
  unfold accepts. intros <- ->. rewrite !andb_true_iff. tauto.
Qed.

End LinkLoops.

Lemma poets_loop_cons (limit : Z) (a : Tag) (rest : list Tag)
  (poets : list (str * str)) :
  poets_loop limit (a :: rest) poets =
  if startswith (link_href a) KK
     && negb (is_navigation_text (link_text a))
     && negb (in_meta_namespace (link_href a))
  then
    if (Z.of_nat (List.length (poets ++ [link_entry a])) >=? limit)%Z
    then poets ++ [link_entry a]
    else poets_loop limit rest (poets ++ [link_entry a])
  else poets_loop limit rest poets.
Proof.
  cbn [poets_loop]. unfold in_meta_namespace, link_entry.
  change (strip (or_empty (Some (get_text a)))) with (link_text a).
  change (or_empty (get a (u "href"))) with (link_href a).
  destruct (startswith (link_href a) KK); [|reflexivity].
  destruct (is_navigation_text (link_text a)); [reflexivity|].
  destruct (startswith (link_href a) CATEGORY_NS || startswith (link_href a) TALK_NS);
    reflexivity.
Qed.

Lemma poets_loop_drop_meta (limit : Z) (anchors : list Tag)
  (poets : list (str * str)) :
  poets_loop limit anchors poets =
  poets_loop limit
    (filter (fun a => negb (in_meta_namespace (link_href a))) anchors) poets.
Proof.
  revert poets; induction anchors as [|a rest IH]; intros poets; [reflexivity|].
  cbn [filter]. destruct (in_meta_namespace (link_href a)) eqn:E; cbn [negb].
  - rewrite poets_loop_cons, E, andb_false_r. apply IH.
  - rewrite !poets_loop_cons, E.
    destruct (startswith (link_href a) KK && negb (is_navigation_text (link_text a))
              && negb false); [|apply IH].
    destruct (Z.of_nat _ >=? limit)%Z; [reflexivity | apply IH].
Qed.

(** Where the entries of the author index come from. *)
Lemma poets_loop_origin (limit : Z) (anchors : list Tag)
  (poets : list (str * str)) (e : str * str) :
  In e (poets_loop limit anchors poets) ->
  In e poets \/
  exists a, In a anchors /\ e = link_entry a /\
            startswith (link_href a) KK = true /\
            is_navigation_text (link_text a) = false /\
            in_meta_namespace (link_href a) = false.
Proof.
  revert poets; induction anchors as [|a rest IH]; intros poets; [now left|].
  assert (Hrest : forall ps, In e (poets_loop limit rest ps) -> In e ps \/
            exists b, In b (a :: rest) /\ e = link_entry b /\
              startswith (link_href b) KK = true /\
              is_navigation_text (link_text b) = false /\
              in_meta_namespace (link_href b) = false).
  { intros ps H. apply IH in H as [H|(b & Hb & Hr)]; [now left|].
    right. exists b. split; [now right | exact Hr]. }
  rewrite poets_loop_cons.
  destruct (startswith (link_href a) KK) eqn:E1; cbn [andb]; [|apply Hrest].
  destruct (is_navigation_text (link_text a)) eqn:E2; cbn [andb negb]; [apply Hrest|].
  destruct (in_meta_namespace (link_href a)) eqn:E3; cbn [andb negb]; [apply Hrest|].
  assert (Hnew : In e (poets ++ [link_entry a]) -> In e poets \/
            exists b, In b (a :: rest) /\ e = link_entry b /\
              startswith (link_href b) KK = true /\
              is_navigation_text (link_text b) = false /\
              in_meta_namespace (link_href b) = false).
  { intros H. apply in_app_or in H as [H|[<-|[]]]; [now left|].
    right. exists a. repeat split; auto. now left. }
  destruct (Z.of_nat _ >=? limit)%Z; [exact Hnew|].
  intros H. apply Hrest in H as [H|H]; [now apply Hnew | now right].
Qed.

(** ** The monad of effects *)

Lemma io_bind_eq {A B} (c : io A) (k : A -> io B) :
  bind c k =
  match snd c with
  | Ok a => (fst c ++ fst (k a), snd (k a))
  | Raise e => (fst c, Raise e)
  end.
Proof. destruct c as [t [a|e]]; cbn; [now destruct (k a) | reflexivity]. Qed.

Lemma bind_trace {A B} (P : event -> Prop) (c : io A) (k : A -> io B) :
  Forall P (fst c) ->
  (forall a, snd c = Ok a -> Forall P (fst (k a))) ->
  Forall P (fst (bind c k)).
Proof.
  intros Hc Hk. rewrite io_bind_eq. destruct (snd c) as [a|e]; cbn [fst]; auto.
  apply Forall_app. auto.
Qed.

(** ** The content extractor *)

Lemma extract_poem_text_eq (soup : BeautifulSoup) :
  extract_poem_text soup = Ok (cascade soup).
Proof.
  unfold extract_poem_text, cascade, region_text. cbn [poem_selectors_loop].
  destruct (select_one soup (u ".poem")) as [b1|];
    destruct (select_one soup (u "#poem")) as [b2|];
    destruct (select_one soup (u "div.mw-content-ltr")) as [b3|];
    destruct (select_one soup (u "#mw-content-text")) as [c|];
    cbn [tag_truthy call_get_text_lines bind result_monad];
    repeat match goal with
           | |- context [nonempty (get_text_lines ?b)] =>
               destruct (nonempty (get_text_lines b))
           end;
    reflexivity.
Qed.

(** ** Discovery of works and parts *)

Section Discovery.

Variable W : World.

Lemma get_poet_works_eq (poet_name poet_url : str) :
  get_poet_works W poet_name poet_url =
  ([EGet poet_url],
   match http_get W poet_url with
   | Ok soup =>
       match index_first (split_ws (normalize_poet_name poet_name)) with
       | Ok tok =>
           Ok (map link_entry
                 (filter (accepts tok (normalize_poet_name poet_name))
                    (select soup CONTENT_ANCHORS)))
       | Raise e => Raise e
       end
   | Raise e => Raise e
   end).
Proof.
  unfold get_poet_works, get_soup, lift. rewrite io_bind_eq. cbn [fst snd].
  destruct (http_get W poet_url) as [soup|e]; [|reflexivity].
  rewrite io_bind_eq. cbn [fst snd].
  destruct (index_first _) as [tok|e]; [|reflexivity].
  now rewrite works_loop_filter.
Qed.

Lemma get_work_parts_eq (poet_name work_url : str) :
  get_work_parts W poet_name work_url =
  ([EGet work_url],
   match http_get W work_url with
   | Ok soup =>
       match index_first (split_ws (normalize_poet_name poet_name)) with
       | Ok tok =>
           Ok (map link_entry
                 (filter (accepts tok (normalize_poet_name poet_name))
                    (select soup CONTENT_ANCHORS)), soup)
       | Raise e => Raise e
       end
   | Raise e => Raise e
   end).
Proof.
  unfold get_work_parts, get_soup, lift. rewrite io_bind_eq. cbn [fst snd].
  destruct (http_get W work_url) as [soup|e]; [|reflexivity].
  rewrite io_bind_eq. cbn [fst snd].
  destruct (index_first _) as [tok|e]; [|reflexivity].
  rewrite io_bind_eq. cbn [fst snd].
  now rewrite parts_loop_filter.
Qed.

Lemma get_poet_list_eq (limit : Z) :
  get_poet_list W limit =
  ([EGet INDEX_URL],
   match http_get W INDEX_URL with
   | Ok soup => Ok (poets_loop limit (select soup CONTENT_ANCHORS) [])
   | Raise e => Raise e
   end).
Proof.
  unfold get_poet_list, get_soup. rewrite io_bind_eq. cbn [fst snd].
  now destruct (http_get W INDEX_URL).
Qed.

End Discovery.

(** ** The work resolver *)

Section Resolver.

Variable W : World.

Lemma append_at_parts (title : str) (done : list pyval) (x : pyval) :
  append_at "parts" x (multipart_record title done) =
  Ok (multipart_record title (done ++ [x])).
Proof. reflexivity. Qed.

Lemma scrape_parts_loop_cons (t url : str) (rest : list (str * str))
  (title : str) (done : list pyval) :
  scrape_parts_loop W ((t, url) :: rest) (multipart_record title done) =
  match http_get W url with
  | Ok psoup =>
      let r := scrape_parts_loop W rest
                 (multipart_record title (done ++ [part_record t (cascade psoup)])) in
      (EGet url :: ESleep :: fst r, snd r)
  | Raise e => ([EGet url], Raise e)
  end.
Proof.
  cbn [scrape_parts_loop]. unfold get_soup, lift, sleep_polite, emit.
  rewrite io_bind_eq. cbn [fst snd].
  destruct (http_get W url) as [psoup|e]; [|reflexivity].
  rewrite io_bind_eq. cbn [fst snd]. rewrite extract_poem_text_eq.
  rewrite io_bind_eq. cbn [fst snd]. rewrite append_at_parts.
  rewrite io_bind_eq. cbn [fst snd]. reflexivity.
Qed.

(** When every part page can be retrieved, the loop appends one record per
    part, in order. *)
Lemma scrape_parts_loop_ok (parts : list (str * str)) (title : str)
  (done : list pyval) :
  (forall p, In p parts -> exists psoup, http_get W (snd p) = Ok psoup) ->
  exists recs,
    Forall2 (PartOf W) parts recs /\
    scrape_parts_loop W parts (multipart_record title done) =
    (part_events parts, Ok (multipart_record title (done ++ recs))).
Proof.
  revert done; induction parts as [|[t url] rest IH]; intros done Hget.
  - exists []. split; [constructor|]. cbn. now rewrite app_nil_r.
  - destruct (Hget (t, url) (or_introl eq_refl)) as [psoup Hp]. cbn [snd] in Hp.
    destruct (IH (done ++ [part_record t (cascade psoup)])) as (recs & HF & Hr).
    { intros p Hin. apply Hget. now right. }
    exists (part_record t (cascade psoup) :: recs). split.
    + constructor; [|exact HF].
      exists psoup, (cascade psoup). cbn [fst snd].
      repeat split; auto using extract_poem_text_eq.
    + rewrite scrape_parts_loop_cons, Hp. cbv zeta. rewrite Hr. cbn [fst snd].
      now rewrite <- app_assoc.
Qed.

(** Whenever the loop returns, it has appended one record per part. *)
Lemma scrape_parts_loop_inv (parts : list (str * str)) (title : str)
  (done : list pyval) (tr : list event) (w : dict) :
  scrape_parts_loop W parts (multipart_record title done) = (tr, Ok w) ->
  exists recs,
    w = multipart_record title (done ++ recs) /\
    List.length recs = List.length parts.
Proof.
  revert done tr; induction parts as [|[t url] rest IH]; intros done tr H.
  - cbn in H. injection H as _ <-. exists []. now rewrite app_nil_r.
  - rewrite scrape_parts_loop_cons in H.
    destruct (http_get W url) as [psoup|e]; [|discriminate].
    cbv zeta in H.
    destruct (scrape_parts_loop W rest _) as [t2 r] eqn:E. cbn [fst snd] in H.
    injection H as _ ->.
    apply IH in E as (recs & -> & Hlen).
    exists (part_record t (cascade psoup) :: recs). split.
    + now rewrite <- app_assoc.
    + cbn [List.length]. now rewrite Hlen.
Qed.

Lemma scrape_work_eq (poet_name work_title work_url : str) :
  scrape_work W poet_name work_title work_url =
  match snd (get_work_parts W poet_name work_url) with
  | Ok ([], soup) =>
      ([EGet work_url], Ok (single_record work_title (cascade soup)))
  | Ok (p :: ps, soup) =>
      let r := scrape_parts_loop W (p :: ps) (multipart_record work_title []) in
      (EGet work_url :: fst r, snd r)
  | Raise e => ([EGet work_url], Raise e)
  end.
Proof.
  unfold scrape_work. rewrite io_bind_eq.
  replace (fst (get_work_parts W poet_name work_url)) with [EGet work_url]
    by now rewrite get_work_parts_eq.
  destruct (snd (get_work_parts W poet_name work_url)) as [[[|p ps] soup]|e];
    [| reflexivity | reflexivity].
  unfold lift. rewrite io_bind_eq. cbn [fst snd].
  now rewrite extract_poem_text_eq.
Qed.

End Resolver.

(** ** Retrievals stay under the article prefix *)

Section Articles.

Variable W : World.

Lemma article_url_base (href : str) :
  startswith href KK = true -> article_url (BASE_URL ++ href).
Proof.
  intros H. unfold article_url.
  change ARTICLE_PREFIX with (BASE_URL ++ KK).
  now rewrite startswith_app.
Qed.

Lemma index_url_article : article_url INDEX_URL.
Proof. apply article_url_base. reflexivity. Qed.

Lemma accepted_entries_articles (tok norm : str) (anchors : list Tag) :
  Forall (fun e => article_url (snd e))
    (map link_entry (filter (accepts tok norm) anchors)).
Proof.
  apply Forall_forall. intros e He.
  apply in_map_iff in He as (a & <- & Ha).
  apply filter_In in Ha as [_ Ha].
  apply article_url_base. eapply accepts_article; eauto.
Qed.

Lemma poets_loop_articles (limit : Z) (anchors : list Tag) :
  Forall (fun e => article_url (snd e)) (poets_loop limit anchors []).
Proof.
  apply Forall_forall. intros e He.
  apply poets_loop_origin in He as [[]|(a & _ & -> & Hk & _)].
  now apply article_url_base.
Qed.

Lemma get_work_parts_articles (poet_name work_url : str)
  (parts : list (str * str)) (soup : BeautifulSoup) :
  snd (get_work_parts W poet_name work_url) = Ok (parts, soup) ->
  Forall (fun e => article_url (snd e)) parts.
Proof.
  rewrite get_work_parts_eq. cbn [snd].
  destruct (http_get W work_url); [|discriminate].
  destruct (index_first _); [|discriminate].
  intros H. injection H as <- _. apply accepted_entries_articles.
Qed.

Lemma get_poet_works_articles (poet_name poet_url : str)
  (works : list (str * str)) :
  snd (get_poet_works W poet_name poet_url) = Ok works ->
  Forall (fun e => article_url (snd e)) works.
Proof.
  rewrite get_poet_works_eq. cbn [snd].
  destruct (http_get W poet_url); [|discriminate].
  destruct (index_first _); [|discriminate].
  intros H. injection H as <-. apply accepted_entries_articles.
Qed.

Lemma scrape_parts_loop_trace (parts : list (str * str)) (work_obj : dict) :
  Forall (fun e => article_url (snd e)) parts ->
  Forall fetches_articles (fst (scrape_parts_loop W parts work_obj)).
Proof.
  revert work_obj; induction parts as [|[t url] rest IH]; intros work_obj H.
  - constructor.
  - inversion H as [|? ? Hu Hrest]; subst. cbn [snd] in Hu.
    cbn [scrape_parts_loop].
    apply bind_trace; [repeat constructor; exact Hu | intros psoup _].
    apply bind_trace; [constructor | intros content _].
    apply bind_trace; [constructor | intros work_obj' _].
    apply bind_trace; [repeat constructor | intros _ _].
    now apply IH.
Qed.

Lemma scrape_work_trace (poet_name work_title work_url : str) :
  article_url work_url ->
  Forall fetches_articles (fst (scrape_work W poet_name work_title work_url)).
Proof.
  intros Hu. unfold scrape_work.
  apply bind_trace.
  - rewrite get_work_parts_eq. repeat constructor. exact Hu.
  - intros [parts soup] Hr. apply get_work_parts_articles in Hr.
    destruct parts as [|p ps].
    + apply bind_trace; [constructor | intros; constructor].
    + now apply scrape_parts_loop_trace.
Qed.

Lemma scrape_works_loop_trace (poet_name : str) (works_meta : list (str * str))
  (poet_data : dict) :
  Forall (fun e => article_url (snd e)) works_meta ->
  Forall fetches_articles (fst (scrape_works_loop W poet_name works_meta poet_data)).
Proof.
  revert poet_data; induction works_meta as [|[t url] rest IH]; intros poet_data H.
  - constructor.
  - inversion H as [|? ? Hu Hrest]; subst. cbn [snd] in Hu.
    cbn [scrape_works_loop].
    apply bind_trace; [now apply scrape_work_trace | intros work_obj _].
    apply bind_trace; [constructor | intros poet_data' _].
    apply bind_trace; [repeat constructor | intros _ _].
    now apply IH.
Qed.

Lemma scrape_poet_trace (poet_name poet_url : str) :
  article_url poet_url ->
  Forall fetches_articles (fst (scrape_poet W poet_name poet_url)).
Proof.
  intros Hu. unfold scrape_poet.
  apply bind_trace.
  - rewrite get_poet_works_eq. repeat constructor. exact Hu.
  - intros works Hr. apply get_poet_works_articles in Hr.
    apply bind_trace; [now apply scrape_works_loop_trace | intros poet_data' _].
    apply bind_trace; [|intros _ _]; unfold open_w, dump_json.
    + destruct (file_open W _); repeat constructor.
    + destruct (json_dump W _ _); repeat constructor.
Qed.

Lemma main_loop_trace (poets : list (str * str)) :
  Forall (fun e => article_url (snd e)) poets ->
  Forall fetches_articles (fst (main_loop W poets)).
Proof.
  induction poets as [|[n url] rest IH]; intros H.
  - constructor.
  - inversion H as [|? ? Hu Hrest]; subst. cbn [snd] in Hu.
    cbn [main_loop].
    apply bind_trace; [now apply scrape_poet_trace | intros _ _].
    apply bind_trace; [repeat constructor | intros _ _].
    now apply IH.
Qed.

Lemma main_trace : Forall fetches_articles (fst (main W)).
Proof.
  unfold main. apply bind_trace.
  - rewrite get_poet_list_eq. cbn [fst].
    constructor; [exact index_url_article | constructor].
  - intros poets Hr. apply main_loop_trace.
    rewrite get_poet_list_eq in Hr. cbn [snd] in Hr.
    destruct (http_get W INDEX_URL); [|discriminate].
    injection Hr as <-. apply poets_loop_articles.
Qed.

End Articles.

(** ** The work pattern and the words of the specification *)

Lemma matches_pattern_iff (poet_name tok text : str) :
  index_first (split_ws (normalize_poet_name poet_name)) = Ok tok ->
  matches_pattern tok (normalize_poet_name poet_name) text = true <->
  MatchesWork text poet_name.
Proof.
  intros Htok. unfold matches_pattern, MatchesWork. rewrite Htok.
  rewrite andb_true_iff, orb_true_iff, !contains_iff.
  destruct (split_on_last text) as (tail & _ & Htail).
  rewrite (last_part_of_spec Htail). split.
  - intros [Hsep Hname]. split; [exact Hsep|].
    exists tail. split; [exact Htail|].
    destruct Hname as [H|H]; [left; now exists tok | now right].
  - intros [Hsep (tail' & Htail' & Hname)]. split; [exact Hsep|].
    rewrite (AfterLastSlash_unique Htail Htail').
    destruct Hname as [(tok' & E & H)|H]; [left | now right].
    now injection E as <-.
Qed.

(** ** The claims *)

(** C1, as the code has it: for an owner name that is empty or purely white
    space no link is matched, and no answer is returned either.  Once the
    page has been retrieved, [get_poet_works] and [get_work_parts] take the
    first token of the normalized name, there is none, and both raise
    [IndexError] before any link is examined. *)
Theorem blank_owner_raises_IndexError (W : World) (poet_name url : str)
  (soup : BeautifulSoup) :
  is_blank poet_name = true ->
  http_get W url = Ok soup ->
  get_poet_works W poet_name url = ([EGet url], Raise IndexError) /\
  get_work_parts W poet_name url = ([EGet url], Raise IndexError).
Proof.
  intros Hb Hg.
  rewrite get_poet_works_eq, get_work_parts_eq, Hg, (first_token_blank _ Hb).
  split; reflexivity.
Qed.

Lemma blank_owner_raises_IndexError_witness :
  is_blank [] = true /\
  get_poet_works index_site [] poet_page_url =
    ([EGet poet_page_url], Raise IndexError) /\
  get_work_parts index_site [] poet_page_url =
    ([EGet poet_page_url], Raise IndexError).
Proof.
  split; [reflexivity|].
  apply (@blank_owner_raises_IndexError index_site [] poet_page_url poet_page);
    reflexivity.
Defined.

(** C1, counterexample: for an owner name of two spaces, on a page that was
    retrieved and holds a link, neither function returns: there is no
    answer false, the result is the exception. *)
Lemma blank_owner_returns_no_answer :
  is_blank (u "  ") = true /\
  http_get category_site poet_page_url = Ok (page [category_link] [] (u "x")) /\
  snd (get_poet_works category_site (u "  ") poet_page_url) = Raise IndexError /\
  snd (get_work_parts category_site (u "  ") poet_page_url) = Raise IndexError /\
  (forall works,
     snd (get_poet_works category_site (u "  ") poet_page_url) <> Ok works).
Proof.
  do 4 (split; [vm_compute; reflexivity|]).
  intros works. vm_compute. discriminate.
Qed.

(** C2, as the code has it: the author index excludes every anchor whose
    href starts with the category or the talk prefix, whatever its text:
    the list of authors is the one obtained from the page with those anchors
    removed, and no entry of the list comes from such an anchor.  Work
    discovery and part discovery make no namespace check. *)
Theorem index_excludes_meta_namespaces (W : World) (limit : Z)
  (soup : BeautifulSoup) :
  http_get W INDEX_URL = Ok soup ->
  exists poets,
    get_poet_list W limit = ([EGet INDEX_URL], Ok poets) /\
    poets = poets_loop limit
              (filter (fun a => negb (in_meta_namespace (link_href a)))
                 (select soup CONTENT_ANCHORS)) [] /\
    forall e, In e poets ->
      exists a, In a (select soup CONTENT_ANCHORS) /\ e = link_entry a /\
                in_meta_namespace (link_href a) = false.
Proof.
  intros Hg. exists (poets_loop limit (select soup CONTENT_ANCHORS) []).
  rewrite get_poet_list_eq, Hg. split; [reflexivity|]. split.
  - apply poets_loop_drop_meta.
  - intros e He. apply poets_loop_origin in He as [[]|(a & Ha & -> & _ & _ & Hn)].
    now exists a.
Qed.

Lemma index_excludes_meta_namespaces_witness :
  exists poets,
    get_poet_list index_site 3140 = ([EGet INDEX_URL], Ok poets) /\
    poets = poets_loop 3140
              (filter (fun a => negb (in_meta_namespace (link_href a)))
                 (select index_page CONTENT_ANCHORS)) [] /\
    forall e, In e poets ->
      exists a, In a (select index_page CONTENT_ANCHORS) /\ e = link_entry a /\
                in_meta_namespace (link_href a) = false.
Proof.
  apply (@index_excludes_meta_namespaces index_site 3140 index_page).
  reflexivity.
Defined.

(** C2, counterexample: a link of a poet page whose href lies in the category
    namespace and whose text follows the work pattern is collected as a work
    by [get_poet_works], and as a part by [get_work_parts]. *)
Lemma category_link_is_collected :
  in_meta_namespace (link_href category_link) = true /\
  get_poet_works category_site mahadevi poet_page_url =
    ([EGet poet_page_url], Ok [link_entry category_link]) /\
  fst (get_work_parts category_site mahadevi poet_page_url) = [EGet poet_page_url] /\
  snd (get_work_parts category_site mahadevi poet_page_url) =
    Ok ([link_entry category_link], page [category_link] [] (u "x")).
Proof.
  split; [vm_compute; reflexivity|].
  split; [vm_compute; reflexivity|].
  split; vm_compute; reflexivity.
Qed.

(** C3, as the code has it: the poem containers [.poem], [#poem] and
    [div.mw-content-ltr] are tried in this order and the first one that
    exists with a non-empty text wins; otherwise the text of the main
    content region [#mw-content-text] is returned when that region exists,
    also when this text is empty; the text of the whole page is returned
    only when the region does not exist. *)
Theorem extract_poem_text_cascade (soup : BeautifulSoup) :
  extract_poem_text soup = Ok (cascade soup).
Proof.
  unfold extract_poem_text, cascade, region_text. cbn [poem_selectors_loop].
  destruct (select_one soup (u ".poem")) as [poem_class|];
    destruct (select_one soup (u "#poem")) as [poem_id|];
    destruct (select_one soup (u "div.mw-content-ltr")) as [ltr|];
    destruct (select_one soup (u "#mw-content-text")) as [content|];
    cbn [tag_truthy call_get_text_lines bind result_monad];
    repeat match goal with
           | |- context [nonempty (get_text_lines ?b)] =>
               destruct (nonempty (get_text_lines b))
           end;
    reflexivity.
Qed.

(** C3, counterexample: on a page without poem container whose main content
    region exists and has an empty text, the result is the empty string and
    not the text of the page, which is not empty. *)
Lemma empty_content_region_no_fallback :
  region_text empty_content_page (u ".poem") = None /\
  region_text empty_content_page (u "#poem") = None /\
  region_text empty_content_page (u "div.mw-content-ltr") = None /\
  select_one empty_content_page (u "#mw-content-text") = Some (block []) /\
  soup_get_text_lines empty_content_page = u "मुखपृष्ठ" /\
  extract_poem_text empty_content_page = Ok [] /\
  extract_poem_text empty_content_page <>
    Ok (soup_get_text_lines empty_content_page).
Proof.
  do 6 (split; [vm_compute; reflexivity|]).
  vm_compute. discriminate.
Qed.

(** C4: the content extractor is total.  On every parsed page it returns a
    string and raises nothing; in particular [get_text] is never called on a
    missing node. *)
Theorem extract_poem_text_total (soup : BeautifulSoup) :
  exists text, extract_poem_text soup = Ok text.
Proof.
  unfold extract_poem_text.
  assert (Hloop : forall selectors,
            exists found, poem_selectors_loop soup selectors = Ok found).
  { induction selectors as [|selector rest [found IH]]; cbn [poem_selectors_loop].
    - now exists None.
    - destruct (select_one soup selector) as [block|];
        cbn [tag_truthy call_get_text_lines bind result_monad].
      + destruct (nonempty (get_text_lines block)); [now eexists | now exists found].
      + now exists found. }
  destruct (Hloop [u ".poem"; u "#poem"; u "div.mw-content-ltr"]) as [found ->].
  cbn [bind result_monad]. destruct found as [text|]; [now exists text|].
  destruct (select_one soup (u "#mw-content-text")) as [content|];
    cbn [tag_truthy call_get_text_lines]; now eexists.
Qed.

(** C5, as the code has it: for an owner name that is not blank, a link is
    collected as a work of the owner only if its text contains the separator
    and the trimmed text after its last slash contains the first token of
    the normalized owner name or the whole normalized name; and a link with
    such a text is collected provided it passed the filter that comes first
    in the loop (article prefix, no navigation text). *)
Theorem work_pattern_characterisation (W : World) (poet_name poet_url : str)
  (soup : BeautifulSoup) (a : Tag) :
  is_blank poet_name = false ->
  http_get W poet_url = Ok soup ->
  In a (select soup CONTENT_ANCHORS) ->
  exists works,
    get_poet_works W poet_name poet_url = ([EGet poet_url], Ok works) /\
    (In (link_entry a) works -> MatchesWork (link_text a) poet_name) /\
    (passes_classifier a = true ->
     MatchesWork (link_text a) poet_name -> In (link_entry a) works).
Proof.
  intros Hb Hg Ha.
  destruct (first_token_exists _ Hb) as [tok Htok].
  rewrite get_poet_works_eq, Hg, Htok. eexists. split; [reflexivity|].
  rewrite in_map_iff. split.
  - intros (b & Hb' & Hin). apply filter_In in Hin as [_ Hacc].
    injection Hb' as Ht _. rewrite <- Ht.
    apply (matches_pattern_iff _ _ Htok).
    unfold accepts in Hacc. apply andb_true_iff in Hacc. tauto.
  - intros Hp HM. exists a. split; [reflexivity|]. apply filter_In.
    split; [exact Ha|]. unfold accepts. rewrite Hp.
    now apply (matches_pattern_iff _ _ Htok).
Qed.

Lemma work_pattern_characterisation_witness :
  exists works,
    get_poet_works index_site mahadevi poet_page_url =
      ([EGet poet_page_url], Ok works) /\
    (In (link_entry work_link) works -> MatchesWork (link_text work_link) mahadevi) /\
    (passes_classifier work_link = true ->
     MatchesWork (link_text work_link) mahadevi -> In (link_entry work_link) works).
Proof.
  apply (@work_pattern_characterisation index_site mahadevi poet_page_url
           poet_page work_link).
  - reflexivity.
  - reflexivity.
  - left. reflexivity.
Defined.

(** C5, counterexample: the text of a language label contains the separator
    and ends in the owner name, its link has the article prefix, and it is
    not collected as a work of that owner: the navigation filter comes
    first. *)
Lemma language_label_is_not_collected :
  urdu <> [] /\
  MatchesWork (link_text language_link) urdu /\
  startswith (link_href language_link) KK = true /\
  select (page [language_link] [] (u "x")) CONTENT_ANCHORS = [language_link] /\
  get_poet_works language_site urdu poet_page_url =
    ([EGet poet_page_url], Ok []).
Proof.
  split; [discriminate|].
  split; [|split; [|split]]; try (vm_compute; reflexivity).
  apply (@matches_pattern_iff urdu urdu); vm_compute; reflexivity.
Qed.

(** C6: when no part candidate is found on the work page, the work resolver
    returns the single record with the title of the work entry and the text
    the content extractor yields on that very page; the work page is the
    only retrieval. *)
Theorem single_work_record (W : World) (poet_name work_title url : str)
  (soup : BeautifulSoup) :
  snd (get_work_parts W poet_name url) = Ok ([], soup) ->
  http_get W url = Ok soup /\
  exists content,
    extract_poem_text soup = Ok content /\
    scrape_work W poet_name work_title url =
      ([EGet url], Ok (single_record work_title content)).
Proof.
  intros H. split.
  - rewrite get_work_parts_eq in H. cbn [snd] in H.
    destruct (http_get W url); [|discriminate].
    destruct (index_first _); [|discriminate].
    now injection H as _ ->.
  - exists (cascade soup). split; [apply extract_poem_text_eq|].
    now rewrite scrape_work_eq, H.
Qed.

Lemma single_work_record_witness :
  http_get single_site work_url = Ok single_page /\
  exists content,
    extract_poem_text single_page = Ok content /\
    scrape_work single_site mahadevi (u "आँसू") work_url =
      ([EGet work_url], Ok (single_record (u "आँसू") content)).
Proof.
  apply (@single_work_record single_site mahadevi (u "आँसू") work_url single_page).
  vm_compute. reflexivity.
Defined.

(** C7: when the part candidates found on the work page are [parts], a list
    that is not empty and that follows the order of the links on the page,
    and every part page can be retrieved, the work resolver returns the
    multipart record whose parts are, in the same order and in the same
    number, the title of each candidate with the text the content extractor
    yields on the page of that candidate. *)
Theorem multipart_work_record (W : World) (poet_name work_title url : str)
  (parts : list (str * str)) (soup : BeautifulSoup) :
  snd (get_work_parts W poet_name url) = Ok (parts, soup) ->
  parts <> [] ->
  (forall p, In p parts -> exists psoup, http_get W (snd p) = Ok psoup) ->
  exists tok recs,
    parts = map link_entry
              (filter (accepts tok (normalize_poet_name poet_name))
                 (select soup CONTENT_ANCHORS)) /\
    Forall2 (PartOf W) parts recs /\
    List.length recs = List.length parts /\
    scrape_work W poet_name work_title url =
      (EGet url :: part_events parts, Ok (multipart_record work_title recs)).
Proof.
  intros H Hne Hget.
  destruct (@scrape_parts_loop_ok W parts work_title [] Hget) as (recs & HF & Hr).
  assert (Htok : exists tok,
    parts = map link_entry
              (filter (accepts tok (normalize_poet_name poet_name))
                 (select soup CONTENT_ANCHORS))).
  { rewrite get_work_parts_eq in H. cbn [snd] in H.
    destruct (http_get W url); [|discriminate].
    destruct (index_first _) as [tok|]; [|discriminate].
    injection H as <- <-. now exists tok. }
  destruct Htok as [tok Htok]. exists tok, recs.
  split; [exact Htok|]. split; [exact HF|].
  split; [symmetry; eapply Forall2_length; eauto|].
  rewrite scrape_work_eq, H.
  destruct parts as [|p ps]; [congruence|].
  cbv zeta. now rewrite Hr.
Qed.

Lemma multipart_work_record_witness :
  exists tok recs,
    [link_entry part1_link; link_entry part2_link] =
      map link_entry
        (filter (accepts tok (normalize_poet_name mahadevi))
           (select multi_page CONTENT_ANCHORS)) /\
    Forall2 (PartOf multi_site)
      [link_entry part1_link; link_entry part2_link] recs /\
    List.length recs = 2 /\
    scrape_work multi_site mahadevi (u "आँसू") work_url =
      (EGet work_url :: part_events [link_entry part1_link; link_entry part2_link],
       Ok (multipart_record (u "आँसू") recs)).
Proof.
  apply (@multipart_work_record multi_site mahadevi (u "आँसू") work_url
           [link_entry part1_link; link_entry part2_link] multi_page).
  - vm_compute. reflexivity.
  - discriminate.
  - intros p [<-|[<-|[]]].
    + exists part1_page. vm_compute. reflexivity.
    + exists part2_page. vm_compute. reflexivity.
Defined.

(** C8: every work record [scrape_work] returns satisfies the invariant of
    the data model: it is of type single and has a content field holding a
    string, or it is of type multipart and its list of parts is not empty. *)
Theorem work_records_well_formed (W : World) (poet_name work_title url : str)
  (tr : list event) (w : dict) :
  scrape_work W poet_name work_title url = (tr, Ok w) ->
  well_formed_work w.
Proof.
  rewrite scrape_work_eq.
  destruct (snd (get_work_parts W poet_name url)) as [[[|p ps] soup]|e];
    [| |discriminate].
  - intros H. injection H as _ <-. left. split; [reflexivity|].
    now exists (cascade soup).
  - cbv zeta.
    destruct (scrape_parts_loop W (p :: ps) (multipart_record work_title []))
      as [t2 r] eqn:E.
    cbn [fst snd]. intros H. injection H as _ ->.
    apply scrape_parts_loop_inv in E as (recs & -> & Hlen).
    right. split; [reflexivity|].
    destruct recs as [|r rs]; [discriminate|].
    now exists r, rs.
Qed.

Lemma work_records_well_formed_witness :
  well_formed_work
    (multipart_record (u "आँसू")
       [part_record (u "भाग 1 / महादेवी वर्मा") (u "पहला");
        part_record (u "भाग 2 / महादेवी वर्मा") (u "दूसरा")]).
Proof.
  apply (@work_records_well_formed multi_site mahadevi (u "आँसू") work_url
           (EGet work_url :: EGet part1_url :: ESleep :: EGet part2_url :: [ESleep])).
  vm_compute. reflexivity.
Defined.

(** C9: part discovery and work discovery apply the same test.  The two
    loops are the same function of the anchors, the first token and the
    normalized name, and on every page [get_work_parts] finds exactly the
    links [get_poet_works] finds, with the same retrieval and the same
    exceptions. *)
Theorem parts_heuristic_is_works_heuristic :
  (forall tok norm anchors acc,
     parts_loop tok norm anchors acc = works_loop tok norm anchors acc) /\
  (forall W poet_name url,
     get_poet_works W poet_name url =
     (fst (get_work_parts W poet_name url),
      match snd (get_work_parts W poet_name url) with
      | Ok (parts, _) => Ok parts
      | Raise e => Raise e
      end)).
Proof.
  split.
  - intros tok norm anchors acc. now rewrite parts_loop_filter, works_loop_filter.
  - intros W poet_name url. rewrite get_poet_works_eq, get_work_parts_eq.
    cbn [fst snd].
    destruct (http_get W url); [|reflexivity].
    destruct (index_first _); reflexivity.
Qed.

(** C10: in each of the three link loops an anchor whose href does not start
    with the article prefix is skipped whatever its text; every entry a loop
    collects comes from an anchor of the page whose href starts with the
    prefix, and its URL is the base URL followed by that href; and every URL
    the program retrieves starts with the base URL followed by the prefix. *)
Theorem article_prefix_invariant (W : World) (limit : Z) (tok norm : str)
  (a : Tag) (rest : list Tag) (acc : list (str * str)) :
  (startswith (link_href a) KK = false ->
     poets_loop limit (a :: rest) acc = poets_loop limit rest acc /\
     works_loop tok norm (a :: rest) acc = works_loop tok norm rest acc /\
     parts_loop tok norm (a :: rest) acc = parts_loop tok norm rest acc) /\
  (forall e, In e (poets_loop limit rest []) ->
     exists b, In b rest /\ startswith (link_href b) KK = true /\
               e = (link_text b, BASE_URL ++ link_href b)) /\
  (forall l e, works_loop tok norm rest [] = Ok l -> In e l ->
     exists b, In b rest /\ startswith (link_href b) KK = true /\
               e = (link_text b, BASE_URL ++ link_href b)) /\
  (forall l e, parts_loop tok norm rest [] = Ok l -> In e l ->
     exists b, In b rest /\ startswith (link_href b) KK = true /\
               e = (link_text b, BASE_URL ++ link_href b)) /\
  Forall fetches_articles (fst (main W)).
Proof.
  assert (Hacc : forall e,
    In e (map link_entry (filter (accepts tok norm) rest)) ->
    exists b, In b rest /\ startswith (link_href b) KK = true /\
              e = (link_text b, BASE_URL ++ link_href b)).
  { intros e He. apply in_map_iff in He as (b & <- & Hb).
    apply filter_In in Hb as [Hin Hb]. exists b.
    split; [exact Hin|]. split; [|reflexivity]. eapply accepts_article; eauto. }
  split; [|split; [|split; [|split]]].
  - intros Hk. split; [|split].
    + now rewrite poets_loop_cons, Hk.
    + rewrite works_loop_cons. unfold accepts, passes_classifier. now rewrite Hk.
    + rewrite parts_loop_cons. unfold accepts, passes_classifier. now rewrite Hk.
  - intros e He. apply poets_loop_origin in He as [[]|(b & Hb & -> & Hk & _)].
    now exists b.
  - intros l e Hl. rewrite works_loop_filter in Hl. injection Hl as <-. apply Hacc.
  - intros l e Hl. rewrite parts_loop_filter in Hl. injection Hl as <-. apply Hacc.
  - apply main_trace.
Qed.

Lemma article_prefix_invariant_witness :
  startswith (link_href outside_link) KK = false /\
  works_loop (u "महादेवी") mahadevi [outside_link; work_link] [] =
    works_loop (u "महादेवी") mahadevi [work_link] [] /\
  works_loop (u "महादेवी") mahadevi [work_link] [] =
    Ok [(link_text work_link, BASE_URL ++ link_href work_link)] /\
  Forall fetches_articles (fst (main index_site)).
Proof.
  destruct (@article_prefix_invariant index_site 3140 (u "महादेवी") mahadevi
              outside_link [work_link] []) as (Hskip & _ & _ & _ & Hmain).
  split; [reflexivity|].
  split; [apply Hskip; reflexivity|].
  split; [vm_compute; reflexivity | exact Hmain].
Defined.

(** * Further properties of the code *)

(** ** Trimming *)

Section Trimming.

Lemma str_eqb_eq (a b : str) : str_eqb a b = true -> a = b.
Proof.
  revert b; induction a as [|x a IH]; intros [|y b]; simpl; try discriminate.
  - reflexivity.
  - rewrite andb_true_iff, N.eqb_eq. intros [-> H]. now rewrite (IH _ H).
Qed.

Lemma str_eqb_refl (a : str) : str_eqb a a = true.
Proof. induction a as [|x a IH]; simpl; [reflexivity | now rewrite N.eqb_refl]. Qed.

Lemma is_blank_has_nonspace (s : str) : is_blank s = negb (has_nonspace s).
Proof.
  induction s as [|c r IH]; simpl; [reflexivity|].
  rewrite IH. now destruct (isspace c).
Qed.

Lemma is_blank_rev (s : str) : is_blank (rev s) = is_blank s.
Proof. now rewrite !is_blank_has_nonspace, has_nonspace_rev. Qed.

Lemma lstrip_pad (pad t : str) :
  is_blank pad = true -> lstrip (pad ++ t) = lstrip t.
Proof.
  induction pad as [|c r IH]; simpl; [reflexivity|].
  rewrite andb_true_iff. intros [-> H]. auto.
Qed.

Lemma lstrip_app (w x : str) :
  has_nonspace w = true -> lstrip (w ++ x) = lstrip w ++ x.
Proof.
  induction w as [|c r IH]; simpl; [discriminate|].
  destruct (isspace c); simpl; auto.
Qed.

(** White space around a text does not change what [strip] returns. *)
Lemma strip_pad (pad1 w pad2 : str) :
  is_blank pad1 = true -> is_blank pad2 = true ->
  strip (pad1 ++ w ++ pad2) = strip w.
Proof.
  intros H1 H2. destruct (is_blank w) eqn:Hw.
  - rewrite (strip_blank _ Hw). apply strip_blank.
    unfold is_blank. rewrite !forallb_app.
    fold (is_blank pad1) (is_blank w) (is_blank pad2). now rewrite H1, Hw, H2.
  - apply has_nonspace_of_not_blank in Hw.
    unfold strip, rstrip.
    rewrite lstrip_pad by assumption. rewrite lstrip_app by assumption.
    rewrite rev_app_distr, lstrip_pad; [reflexivity|].
    now rewrite is_blank_rev.
Qed.

Lemma strip_nonempty_not_blank (s : str) :
  nonempty (strip s) = true -> is_blank (strip s) = false.
Proof.
  intros H. rewrite is_blank_has_nonspace, has_nonspace_strip.
  destruct (has_nonspace s) eqn:E; [reflexivity|].
  assert (Hb : is_blank s = true) by now rewrite is_blank_has_nonspace, E.
  now rewrite (strip_blank _ Hb) in H.
Qed.

Lemma all_nonspace_rev (s : str) : all_nonspace (rev s) = all_nonspace s.
Proof.
  unfold all_nonspace. induction s as [|c r IH]; simpl; [reflexivity|].
  rewrite forallb_app, IH. simpl. now rewrite andb_true_r, andb_comm.
Qed.

Lemma nonempty_rev (s : str) : nonempty (rev s) = nonempty s.
Proof.
  destruct s as [|c r]; [reflexivity|]. simpl.
  now destruct (rev r).
Qed.

(** Under [lstrip], everything from an occurrence of a non-empty text without
    white space on is kept. *)
Lemma lstrip_keeps (n pre post : str) :
  nonempty n = true -> all_nonspace n = true ->
  exists pre', lstrip (pre ++ n ++ post) = pre' ++ n ++ post.
Proof.
  intros Hne Hn. destruct n as [|c n]; [discriminate|].
  assert (Hc : isspace c = false).
  { simpl in Hn. apply andb_true_iff in Hn as [Hc _]. now destruct (isspace c). }
  induction pre as [|x pre IH]; simpl.
  - rewrite Hc. now exists [].
  - destruct (isspace x); [exact IH | now exists (x :: pre)].
Qed.

(** [strip] keeps every occurrence of a non-empty text without white
    space. *)
Lemma strip_keeps (n s : str) :
  nonempty n = true -> all_nonspace n = true ->
  Substring n s -> Substring n (strip s).
Proof.
  intros Hne Hn (pre & post & ->). unfold strip, rstrip.
  destruct (@lstrip_keeps n pre post Hne Hn) as [pre' ->].
  rewrite !rev_app_distr, <- app_assoc.
  destruct (@lstrip_keeps (rev n) (rev post) (rev pre')) as [post' ->].
  { now rewrite nonempty_rev. }
  { now rewrite all_nonspace_rev. }
  exists pre', (rev post').
  now rewrite !rev_app_distr, !rev_involutive, <- app_assoc.
Qed.

End Trimming.

(** ** The navigation filter and the author index *)

Section Navigation.

Lemma denylisted_trimmed (w : str) :
  denylisted w = true -> strip w = w /\ nonempty w = true.
Proof.
  assert (Hall : forallb (fun x => str_eqb (strip x) x && nonempty x)
                   (SKIP_LINK_WORDS ++ LANG_WORDS) = true)
    by (vm_compute; reflexivity).
  rewrite forallb_forall in Hall.
  unfold denylisted, mem. rewrite <- existsb_app.
  intros H. apply existsb_exists in H as (x & Hx & E).
  apply str_eqb_eq in E as ->.
  specialize (Hall x Hx). apply andb_true_iff in Hall as [H1 H2].
  split; [now apply str_eqb_eq | exact H2].
Qed.

Lemma nonempty_app_middle (a w b : str) :
  nonempty w = true -> nonempty (a ++ w ++ b) = true.
Proof.
  intros H. destruct a; [|reflexivity]. destruct w; [discriminate | reflexivity].
Qed.

Lemma is_navigation_text_false (text : str) :
  is_navigation_text text = false -> nonempty text = true.
Proof.
  unfold is_navigation_text. destruct (nonempty text); [reflexivity | discriminate].
Qed.

Lemma poets_loop_names (limit : Z) (anchors : list Tag) (e : str * str) :
  In e (poets_loop limit anchors []) ->
  is_blank (fst e) = false /\ is_navigation_text (fst e) = false.
Proof.
  intros He.
  apply poets_loop_origin in He as [[]|(a & _ & -> & _ & Hnav & _)].
  cbn [link_entry fst]. split; [|exact Hnav].
  apply is_navigation_text_false in Hnav.
  unfold link_text in *. now apply strip_nonempty_not_blank.
Qed.

Lemma poets_loop_firstn (limit : Z) (anchors : list Tag)
  (poets : list (str * str)) :
  poets_loop limit anchors poets =
  poets ++
  firstn (Z.to_nat (Z.max 1 (limit - Z.of_nat (List.length poets))))
    (map link_entry (filter index_candidate anchors)).
Proof.
  revert poets; induction anchors as [|a rest IH]; intros poets.
  - cbn [poets_loop filter map]. now rewrite firstn_nil, app_nil_r.
  - rewrite poets_loop_cons. cbn [filter].
    change (startswith (link_href a) KK
            && negb (is_navigation_text (link_text a))
            && negb (in_meta_namespace (link_href a)))
      with (index_candidate a).
    destruct (index_candidate a); [|apply IH].
    cbn [map]. rewrite IH, length_app. cbn [List.length].
    destruct (Z.of_nat (List.length poets + 1) >=? limit)%Z eqn:E;
      rewrite Z.geb_leb in E.
    + apply Z.leb_le in E.
      replace (Z.to_nat (Z.max 1 (limit - Z.of_nat (List.length poets))))
        with 1%nat by lia.
      reflexivity.
    + apply Z.leb_gt in E.
      replace (Z.to_nat (Z.max 1 (limit - Z.of_nat (List.length poets))))
        with (S (Z.to_nat (Z.max 1 (limit - Z.of_nat (List.length poets + 1)))))
        by lia.
      cbn [firstn]. now rewrite <- app_assoc.
Qed.

End Navigation.

(** X1: a text that is a denylisted label, also with white space around it,
    is navigation text. *)
Theorem denylisted_label_is_navigation (w pad1 pad2 : str) :
  denylisted w = true ->
  is_blank pad1 = true -> is_blank pad2 = true ->
  is_navigation_text (pad1 ++ w ++ pad2) = true.
Proof.
  intros Hw H1 H2. destruct (denylisted_trimmed _ Hw) as [Hs Hne].
  unfold is_navigation_text.
  rewrite nonempty_app_middle by assumption. cbn [negb].
  rewrite strip_pad by assumption. rewrite Hs.
  fold (denylisted w). now rewrite Hw.
Qed.

Lemma denylisted_label_is_navigation_witness :
  denylisted (u "चर्चा") = true /\
  is_navigation_text (u "  " ++ u "चर्चा" ++ [10%N]) = true.
Proof.
  split; [vm_compute; reflexivity|].
  apply denylisted_label_is_navigation; vm_compute; reflexivity.
Defined.

(** X2: a text that contains three dots in a row or a vertical bar is
    navigation text, whatever else it contains. *)
Theorem marked_text_is_navigation (text : str) :
  Substring (u "...") text \/ Substring (u "|") text ->
  is_navigation_text text = true.
Proof.
  intros H. unfold is_navigation_text.
  destruct (nonempty text); [cbn [negb] | reflexivity].
  destruct (mem (strip text) SKIP_LINK_WORDS || mem (strip text) LANG_WORDS);
    [reflexivity|].
  cbn [existsb].
  destruct H as [H|H]; apply strip_keeps in H; try reflexivity;
    apply contains_iff in H; rewrite H; [reflexivity|].
  now rewrite orb_true_r.
Qed.

Lemma marked_text_is_navigation_witness :
  Substring (u "|") (u "आँसू | महादेवी वर्मा") /\
  is_navigation_text (u "आँसू | महादेवी वर्मा") = true.
Proof.
  assert (H : Substring (u "|") (u "आँसू | महादेवी वर्मा"))
    by (apply contains_iff; vm_compute; reflexivity).
  split; [exact H|].
  apply marked_text_is_navigation. right. exact H.
Defined.

(** X3: a text of white space only that is not empty is no navigation text
    for [is_navigation_text]; the link loops trim the text first, and the
    trimmed text is empty and therefore navigation text, so an anchor with
    such a text is skipped by every loop. *)
Theorem blank_text_edge (text : str) :
  is_blank text = true ->
  is_navigation_text (strip text) = true /\
  (nonempty text = true -> is_navigation_text text = false).
Proof.
  intros Hb. rewrite (strip_blank _ Hb). split; [reflexivity|].
  intros Hne. unfold is_navigation_text.
  rewrite Hne, (strip_blank _ Hb). vm_compute. reflexivity.
Qed.

Lemma blank_text_edge_witness :
  is_navigation_text (strip (u "  ")) = true /\
  (nonempty (u "  ") = true -> is_navigation_text (u "  ") = false).
Proof. apply blank_text_edge. reflexivity. Defined.

(** X4: the author index is the list of the candidate links of the page in
    document order, duplicates included, cut after the first [limit] of
    them; the cap is tested after a link was appended, so a [limit] of zero
    or less still yields the first candidate.  A failed retrieval is
    raised. *)
Theorem get_poet_list_first_candidates (W : World) (limit : Z) :
  get_poet_list W limit =
  ([EGet INDEX_URL],
   match http_get W INDEX_URL with
   | Ok soup =>
       Ok (firstn (Z.to_nat (Z.max 1 limit))
             (map link_entry (filter index_candidate (select soup CONTENT_ANCHORS))))
   | Raise e => Raise e
   end).
Proof.
  rewrite get_poet_list_eq. destruct (http_get W INDEX_URL) as [soup|e]; [|reflexivity].
  rewrite poets_loop_firstn. cbn [List.length app Z.of_nat].
  now rewrite Z.sub_0_r.
Qed.

(** X5: every author name of the index contains a code point that is no
    white space and is no navigation text. *)
Theorem index_names_not_blank (W : World) (limit : Z) (poets : list (str * str)) :
  snd (get_poet_list W limit) = Ok poets ->
  Forall (fun p => is_blank (fst p) = false /\
                   is_navigation_text (fst p) = false) poets.
Proof.
  rewrite get_poet_list_eq. cbn [snd].
  destruct (http_get W INDEX_URL) as [soup|e]; [|discriminate].
  intros H. injection H as <-.
  apply Forall_forall. intros e He. eapply poets_loop_names; eauto.
Qed.

Lemma index_names_not_blank_witness :
  Forall (fun p => is_blank (fst p) = false /\
                   is_navigation_text (fst p) = false)
    [(mahadevi, poet_page_url)].
Proof.
  apply (@index_names_not_blank index_site 3140).
  vm_compute. reflexivity.
Defined.

(** ** The first token of the owner name *)

Section FirstToken.

Lemma split_ws_go_first (s cur tok : str) (rest : list str) :
  split_ws_go s cur = tok :: rest -> Substring tok (cur ++ s).
Proof.
  revert cur; induction s as [|c r IH]; intros cur; simpl.
  - destruct (nonempty cur); [|discriminate].
    intros H. injection H as <- _. now exists [], [].
  - destruct (isspace c).
    + destruct (nonempty cur) eqn:E.
      * intros H. injection H as <- _. now exists [], (c :: r).
      * destruct cur; [|discriminate]. intros H.
        apply IH in H as (pre & post & H). simpl in H.
        exists (c :: pre), post. simpl. now rewrite H.
    + intros H. apply IH in H. now rewrite <- app_assoc in H.
Qed.

Lemma first_token_substring (s tok : str) :
  index_first (split_ws s) = Ok tok -> Substring tok s.
Proof.
  unfold split_ws. destruct (split_ws_go s []) as [|t rest] eqn:E; [discriminate|].
  intros H. injection H as <-. now apply split_ws_go_first in E.
Qed.

Lemma Substring_trans (a b c : str) :
  Substring a b -> Substring b c -> Substring a c.
Proof.
  intros (p1 & q1 & ->) (p2 & q2 & ->).
  exists (p2 ++ p1), (q1 ++ q2). now rewrite <- !app_assoc.
Qed.

Lemma matches_pattern_token (poet_name tok text : str) :
  index_first (split_ws (normalize_poet_name poet_name)) = Ok tok ->
  matches_pattern tok (normalize_poet_name poet_name) text =
  contains (u " / ") text && contains tok (last_part_of text).
Proof.
  intros Htok. unfold matches_pattern. f_equal.
  destruct (contains tok (last_part_of text)) eqn:E1; [reflexivity|].
  destruct (contains (normalize_poet_name poet_name) (last_part_of text)) eqn:E2;
    [|reflexivity].
  apply contains_iff in E2.
  apply first_token_substring in Htok.
  apply (Substring_trans Htok), contains_iff in E2. congruence.
Qed.

End FirstToken.

(** X6: for an owner name that has a first token, the pattern test of the
    link loops is decided by that token alone: a link text passes exactly
    when it contains the separator and the trimmed text after its last slash
    contains the first token.  The test on the whole name never adds a
    link. *)
Theorem first_token_decides (poet_name tok text : str) :
  index_first (split_ws (normalize_poet_name poet_name)) = Ok tok ->
  matches_pattern tok (normalize_poet_name poet_name) text =
  contains (u " / ") text && contains tok (last_part_of text).
Proof. intros H. now apply matches_pattern_token. Qed.

Lemma first_token_decides_witness :
  matches_pattern (u "महादेवी") (normalize_poet_name mahadevi)
    (u "आँसू / महादेवी") =
  contains (u " / ") (u "आँसू / महादेवी")
  && contains (u "महादेवी") (last_part_of (u "आँसू / महादेवी")).
Proof.
  apply (@first_token_decides mahadevi (u "महादेवी") (u "आँसू / महादेवी")).
  vm_compute. reflexivity.
Defined.

(** X7: two owner names with the same first token after normalization get
    the same works from the same page, and the same parts. *)
Theorem same_first_token_same_works (W : World) (name1 name2 url : str) :
  index_first (split_ws (normalize_poet_name name1)) =
  index_first (split_ws (normalize_poet_name name2)) ->
  get_poet_works W name1 url = get_poet_works W name2 url /\
  get_work_parts W name1 url = get_work_parts W name2 url.
Proof.
  intros H. rewrite !get_poet_works_eq, !get_work_parts_eq, <- H.
  destruct (http_get W url) as [soup|e]; [|split; reflexivity].
  destruct (index_first (split_ws (normalize_poet_name name1))) as [tok|e] eqn:E;
    [|split; reflexivity].
  assert (Hf : filter (accepts tok (normalize_poet_name name1))
                 (select soup CONTENT_ANCHORS) =
               filter (accepts tok (normalize_poet_name name2))
                 (select soup CONTENT_ANCHORS)).
  { apply filter_ext. intros a. unfold accepts.
    rewrite (@matches_pattern_token name1 tok _ E).
    symmetry in H. now rewrite (@matches_pattern_token name2 tok _ H). }
  now rewrite Hf.
Qed.

Lemma same_first_token_same_works_witness :
  get_poet_works index_site mahadevi poet_page_url =
    get_poet_works index_site (u "महादेवी") poet_page_url /\
  get_work_parts index_site mahadevi poet_page_url =
    get_work_parts index_site (u "महादेवी") poet_page_url.
Proof.
  apply same_first_token_same_works. vm_compute. reflexivity.
Defined.


(** ** Failures, and what is written *)

Section Failures.

Variable W : World.

Lemma writes_app (t1 t2 : list event) : writes (t1 ++ t2) = writes t1 ++ writes t2.
Proof. apply flat_map_app. Qed.


Lemma no_file_event_trace (tr : list event) :
  Forall no_file_event tr -> writes tr = [] /\ opened tr = [].
Proof.
  induction 1 as [|e tr He _ [IH1 IH2]]; [split; reflexivity|].
  destruct e; cbn in *; tauto.
Qed.



Lemma scrape_parts_loop_fail (pre : list (str * str)) (p : str * str)
  (post : list (str * str)) (title : str) (done : list pyval) (e : exn) :
  (forall q, In q pre -> exists psoup, http_get W (snd q) = Ok psoup) ->
  http_get W (snd p) = Raise e ->
  scrape_parts_loop W (pre ++ p :: post) (multipart_record title done) =
  (part_events pre ++ [EGet (snd p)], Raise e).
Proof.
  revert done; induction pre as [|[t url] pre IH]; intros done Hpre Hp.
  - destruct p as [t url]. cbn [app snd] in *.
    now rewrite scrape_parts_loop_cons, Hp.
  - destruct (Hpre (t, url) (or_introl eq_refl)) as [psoup Hg]. cbn [snd] in Hg.
    cbn [app]. rewrite scrape_parts_loop_cons, Hg. cbv zeta.
    rewrite IH; [reflexivity | | exact Hp].
    intros q Hq. apply Hpre. now right.
Qed.


Lemma scrape_parts_loop_no_file (parts : list (str * str)) (work_obj : dict) :
  Forall no_file_event (fst (scrape_parts_loop W parts work_obj)).
Proof.
  revert work_obj; induction parts as [|[t url] rest IH]; intros work_obj.
  - constructor.
  - cbn [scrape_parts_loop].
    apply bind_trace; [repeat constructor | intros psoup _].
    apply bind_trace; [constructor | intros content _].
    apply bind_trace; [constructor | intros work_obj' _].
    apply bind_trace; [repeat constructor | intros _ _].
    apply IH.
Qed.

Lemma scrape_work_no_file (poet_name title url : str) :
  Forall no_file_event (fst (scrape_work W poet_name title url)).
Proof.
  unfold scrape_work. apply bind_trace.
  - rewrite get_work_parts_eq. repeat constructor.
  - intros [[|p ps] soup] _.
    + apply bind_trace; [constructor | intros; constructor].
    + apply scrape_parts_loop_no_file.
Qed.


Lemma append_at_works (name : str) (ws : list pyval) (x : pyval) :
  append_at "works" x (poet_record name ws) = Ok (poet_record name (ws ++ [x])).
Proof. reflexivity. Qed.

Lemma scrape_works_loop_cons (poet_name t url : str) (rest : list (str * str))
  (name : str) (ws : list pyval) :
  scrape_works_loop W poet_name ((t, url) :: rest) (poet_record name ws) =
  match snd (scrape_work W poet_name t url) with
  | Ok w =>
      let r := scrape_works_loop W poet_name rest
                 (poet_record name (ws ++ [VDict w])) in
      (fst (scrape_work W poet_name t url) ++ ESleep :: fst r, snd r)
  | Raise e => (fst (scrape_work W poet_name t url), Raise e)
  end.
Proof.
  cbn [scrape_works_loop]. rewrite io_bind_eq.
  destruct (snd (scrape_work W poet_name t url)) as [w|e]; [|reflexivity].
  unfold lift, sleep_polite, emit.
  rewrite io_bind_eq. cbn [fst snd]. rewrite append_at_works.
  rewrite io_bind_eq. cbn [fst snd]. reflexivity.
Qed.

Lemma scrape_works_loop_no_file (poet_name : str) (works_meta : list (str * str))
  (poet_data : dict) :
  Forall no_file_event (fst (scrape_works_loop W poet_name works_meta poet_data)).
Proof.
  revert poet_data; induction works_meta as [|[t url] rest IH]; intros poet_data.
  - constructor.
  - cbn [scrape_works_loop].
    apply bind_trace; [apply scrape_work_no_file | intros work_obj _].
    apply bind_trace; [constructor | intros poet_data' _].
    apply bind_trace; [repeat constructor | intros _ _].
    apply IH.
Qed.

Lemma scrape_works_loop_inv (poet_name : str) (works_meta : list (str * str))
  (name : str) (ws : list pyval) (d : dict) :
  snd (scrape_works_loop W poet_name works_meta (poet_record name ws)) = Ok d ->
  exists ws', d = poet_record name (ws ++ ws') /\
              Forall2 (WorkOf W poet_name) works_meta ws'.
Proof.
  revert ws; induction works_meta as [|[t url] rest IH]; intros ws.
  - cbn. intros H. injection H as <-. exists []. split; [now rewrite app_nil_r | constructor].
  - rewrite scrape_works_loop_cons.
    destruct (snd (scrape_work W poet_name t url)) as [w|e] eqn:E; [|discriminate].
    cbv zeta. cbn [snd]. intros H. apply IH in H as (ws' & -> & HF).
    exists (VDict w :: ws'). split; [now rewrite <- app_assoc|].
    constructor; [|exact HF]. now exists w.
Qed.


Lemma scrape_poet_eq (poet_name poet_url : str) :
  scrape_poet W poet_name poet_url =
  match snd (get_poet_works W poet_name poet_url) with
  | Ok works =>
      let r := scrape_works_loop W poet_name works (poet_record poet_name []) in
      match snd r with
      | Ok d =>
          match file_open W (out_path poet_name) with
          | Ok _ =>
              match json_dump W (out_path poet_name) (VDict d) with
              | Ok _ =>
                  (EGet poet_url :: fst r ++
                     [EOpen (out_path poet_name);
                      EWrite (out_path poet_name) (VDict d)], Ok tt)
              | Raise e =>
                  (EGet poet_url :: fst r ++
                     [EOpen (out_path poet_name);
                      EPartial (out_path poet_name) (VDict d)], Raise e)
              end
          | Raise e =>
              (EGet poet_url :: fst r ++ [EOpenFailed (out_path poet_name)],
               Raise e)
          end
      | Raise e => (EGet poet_url :: fst r, Raise e)
      end
  | Raise e => ([EGet poet_url], Raise e)
  end.
Proof.
  unfold scrape_poet. rewrite io_bind_eq.
  replace (fst (get_poet_works W poet_name poet_url)) with [EGet poet_url]
    by now rewrite get_poet_works_eq.
  destruct (snd (get_poet_works W poet_name poet_url)) as [works|e]; [|reflexivity].
  rewrite io_bind_eq. cbv zeta.
  change [("poet"%string, VStr poet_name); ("works"%string, VList [])]
    with (poet_record poet_name []).
  change (path_join SAVE_DIR (poet_name ++ u ".json")) with (out_path poet_name).
  destruct (snd (scrape_works_loop W poet_name works (poet_record poet_name [])))
    as [d|e]; [|reflexivity].
  rewrite io_bind_eq. unfold open_w, dump_json.
  destruct (file_open W (out_path poet_name)) as [[]|e]; cbn [fst snd];
    [|reflexivity].
  destruct (json_dump W (out_path poet_name) (VDict d)) as [[]|e]; reflexivity.
Qed.

Lemma out_path_eq (poet_name : str) :
  out_path poet_name =
  if startswith poet_name (u "/") then poet_name ++ u ".json"
  else SAVE_DIR ++ u "/" ++ poet_name ++ u ".json".
Proof.
  unfold out_path, path_join. now destruct poet_name as [|c r].
Qed.

Lemma scrape_poet_ok (poet_name poet_url : str) :
  snd (scrape_poet W poet_name poet_url) = Ok tt ->
  exists works ws tr0,
    snd (get_poet_works W poet_name poet_url) = Ok works /\
    Forall2 (WorkOf W poet_name) works ws /\
    fst (scrape_poet W poet_name poet_url) =
      tr0 ++ [EOpen (out_path poet_name);
              EWrite (out_path poet_name) (VDict (poet_record poet_name ws))] /\
    writes tr0 = [] /\ opened tr0 = [].
Proof.
  rewrite scrape_poet_eq.
  destruct (snd (get_poet_works W poet_name poet_url)) as [works|e]; [|discriminate].
  cbv zeta.
  destruct (snd (scrape_works_loop W poet_name works (poet_record poet_name [])))
    as [d|e] eqn:E; [|discriminate].
  apply scrape_works_loop_inv in E as (ws & -> & HF). cbn [app].
  destruct (file_open W _) as [[]|e]; [|discriminate].
  destruct (json_dump W _ _) as [[]|e]; [|discriminate].
  cbn [fst snd]. intros _.
  exists works, ws,
    (EGet poet_url ::
     fst (scrape_works_loop W poet_name works (poet_record poet_name []))).
  split; [reflexivity|]. split; [exact HF|]. split; [reflexivity|].
  apply no_file_event_trace. constructor; [exact I|].
  apply scrape_works_loop_no_file.
Qed.



Lemma main_loop_cons (poet_name poet_url : str) (rest : list (str * str)) :
  main_loop W ((poet_name, poet_url) :: rest) =
  match snd (scrape_poet W poet_name poet_url) with
  | Ok _ =>
      (fst (scrape_poet W poet_name poet_url) ++ ESleep :: fst (main_loop W rest),
       snd (main_loop W rest))
  | Raise e => (fst (scrape_poet W poet_name poet_url), Raise e)
  end.
Proof.
  cbn [main_loop]. rewrite io_bind_eq.
  destruct (snd (scrape_poet W poet_name poet_url)) as [[]|e]; [|reflexivity].
  unfold sleep_polite, emit. rewrite io_bind_eq. reflexivity.
Qed.


Lemma main_loop_writes (poets : list (str * str)) :
  snd (main_loop W poets) = Ok tt ->
  map fst (writes (fst (main_loop W poets))) = map (fun p => out_path (fst p)) poets.
Proof.
  induction poets as [|[n url] rest IH]; [reflexivity|].
  rewrite main_loop_cons.
  destruct (snd (scrape_poet W n url)) as [[]|e'] eqn:E; [|discriminate].
  cbn [fst snd]. intros H.
  apply scrape_poet_ok in E as (works & ws & tr0 & _ & _ & -> & Hw & _).
  change (ESleep :: fst (main_loop W rest)) with ([ESleep] ++ fst (main_loop W rest)).
  rewrite !writes_app, Hw, !map_app. cbn. now rewrite IH.
Qed.

End Failures.

(** X9: when the page of a part cannot be retrieved, [scrape_work] raises
    the exception of that retrieval and returns no record; the parts before
    it were retrieved, each followed by a pause, and the parts after it are
    not requested. *)
Theorem part_failure_propagates (W : World) (poet_name title url : str)
  (pre : list (str * str)) (p : str * str) (post : list (str * str))
  (soup : BeautifulSoup) (e : exn) :
  snd (get_work_parts W poet_name url) = Ok (pre ++ p :: post, soup) ->
  (forall q, In q pre -> exists psoup, http_get W (snd q) = Ok psoup) ->
  http_get W (snd p) = Raise e ->
  scrape_work W poet_name title url =
  (EGet url :: part_events pre ++ [EGet (snd p)], Raise e).
Proof.
  intros H Hpre Hp. rewrite scrape_work_eq, H.
  destruct (pre ++ p :: post) as [|x xs] eqn:E; [destruct pre; discriminate|].
  rewrite <- E. cbv zeta.
  now rewrite (@scrape_parts_loop_fail W pre p post title [] e Hpre Hp).
Qed.

Lemma part_failure_propagates_witness :
  scrape_work broken_part_site mahadevi (u "आँसू") work_url =
  (EGet work_url :: part_events [link_entry part1_link] ++ [EGet part2_url],
   Raise RequestException).
Proof.
  apply (@part_failure_propagates broken_part_site mahadevi (u "आँसू") work_url
           [link_entry part1_link] (link_entry part2_link) [] multi_page).
  - vm_compute. reflexivity.
  - intros q [<-|[]]. exists part1_page. vm_compute. reflexivity.
  - vm_compute. reflexivity.
Defined.

(** X10: when [scrape_poet] returns, it has opened one file and written one
    record into it, as its last two steps.  The file is the one at
    [os.path.join(SAVE_DIR, poet_name + ".json")]: under [SAVE_DIR] when the
    name does not start with a slash, and at the name itself, followed by
    the extension, when it does.  The record holds the name of the author
    and, for every work found on the page of the author and in the same
    order, the record [scrape_work] returns for it. *)
Theorem scrape_poet_writes_complete_record (W : World)
  (poet_name poet_url : str) :
  snd (scrape_poet W poet_name poet_url) = Ok tt ->
  exists works ws tr0,
    snd (get_poet_works W poet_name poet_url) = Ok works /\
    Forall2 (WorkOf W poet_name) works ws /\
    fst (scrape_poet W poet_name poet_url) =
      tr0 ++ [EOpen (out_path poet_name);
              EWrite (out_path poet_name) (VDict (poet_record poet_name ws))] /\
    writes tr0 = [] /\ opened tr0 = [] /\
    out_path poet_name =
      if startswith poet_name (u "/") then poet_name ++ u ".json"
      else SAVE_DIR ++ u "/" ++ poet_name ++ u ".json".
Proof.
  intros H. destruct (scrape_poet_ok W _ _ H) as (works & ws & tr0 & H1 & H2 & H3 & H4 & H5).
  exists works, ws, tr0. repeat (split; [assumption|]). apply out_path_eq.
Qed.

Lemma scrape_poet_writes_complete_record_witness :
  exists works ws tr0,
    snd (get_poet_works index_site mahadevi poet_page_url) = Ok works /\
    Forall2 (WorkOf index_site mahadevi) works ws /\
    fst (scrape_poet index_site mahadevi poet_page_url) =
      tr0 ++ [EOpen (out_path mahadevi);
              EWrite (out_path mahadevi) (VDict (poet_record mahadevi ws))] /\
    writes tr0 = [] /\ opened tr0 = [] /\
    out_path mahadevi =
      if startswith mahadevi (u "/") then mahadevi ++ u ".json"
      else SAVE_DIR ++ u "/" ++ mahadevi ++ u ".json".
Proof.
  apply scrape_poet_writes_complete_record. vm_compute. reflexivity.
Defined.







(** X14: when [main] returns, it has written one file per author of the
    index, in the order of the index, each under the path of that author. *)
Theorem main_writes_in_index_order (W : World) :
  snd (main W) = Ok tt ->
  exists poets,
    snd (get_poet_list W 3140) = Ok poets /\
    map fst (writes (fst (main W))) = map (fun p => out_path (fst p)) poets.
Proof.
  unfold main. rewrite io_bind_eq.
  replace (fst (get_poet_list W 3140)) with [EGet INDEX_URL]
    by now rewrite get_poet_list_eq.
  destruct (snd (get_poet_list W 3140)) as [poets|e]; [|discriminate].
  cbn [fst snd]. intros H. exists poets. split; [reflexivity|].
  change (EGet INDEX_URL :: fst (main_loop W poets))
    with ([EGet INDEX_URL] ++ fst (main_loop W poets)).
  rewrite writes_app. now apply main_loop_writes.
Qed.

Lemma main_writes_in_index_order_witness :
  exists poets,
    snd (get_poet_list index_site 3140) = Ok poets /\
    map fst (writes (fst (main index_site))) = map (fun p => out_path (fst p)) poets.
Proof. apply main_writes_in_index_order. vm_compute. reflexivity. Defined.

(** ** Normalization of owner names *)

Section Normalization.

Lemma lstrip_decompose (s : str) :
  exists pad, is_blank pad = true /\ s = pad ++ lstrip s.
Proof.
  induction s as [|c r (pad & Hp & E)]; simpl.
  - now exists [].
  - destruct (isspace c) eqn:Hc; [|now exists []].
    exists (c :: pad). simpl. rewrite Hc, Hp. split; [reflexivity | now f_equal].
Qed.

Lemma strip_decompose (s : str) :
  exists pad1 pad2,
    is_blank pad1 = true /\ is_blank pad2 = true /\ s = pad1 ++ strip s ++ pad2.
Proof.
  destruct (lstrip_decompose s) as (pad1 & H1 & E1).
  destruct (lstrip_decompose (rev (lstrip s))) as (pad & H2 & E2).
  exists pad1, (rev pad). split; [exact H1|]. split; [now rewrite is_blank_rev|].
  unfold strip, rstrip.
  rewrite <- rev_app_distr, <- E2, rev_involutive. exact E1.
Qed.

Lemma strip_idempotent (s : str) : strip (strip s) = strip s.
Proof.
  destruct (strip_decompose s) as (pad1 & pad2 & H1 & H2 & E).
  rewrite E at 2. symmetry. now apply strip_pad.
Qed.

Lemma Substring_strip (n s : str) : Substring n (strip s) -> Substring n s.
Proof.
  intros H. destruct (strip_decompose s) as (pad1 & pad2 & _ & _ & E).
  eapply Substring_trans; [exact H|]. now exists pad1, pad2.
Qed.

Lemma In_strip (c : N) (s : str) : In c (strip s) -> In c s.
Proof.
  intros H. destruct (strip_decompose s) as (pad1 & pad2 & _ & _ & E).
  rewrite E. apply in_or_app. right. apply in_or_app. now left.
Qed.

Lemma In_replace_go (c : N) (old new s : str) (skip : nat) :
  In c (replace_go old new s skip) -> In c s \/ In c new.
Proof.
  revert skip; induction s as [|x r IH]; intros skip; simpl; [tauto|].
  destruct skip as [|k].
  - destruct (startswith (x :: r) old).
    + intros H. apply in_app_or in H as [H|H]; [now right|].
      apply IH in H. tauto.
    + intros [H|H]; [now left; left|]. apply IH in H. tauto.
  - intros H. apply IH in H. tauto.
Qed.

(** Replacing a single code point by a text without it removes it. *)
Lemma replace_single_removes (c : N) (new s : str) :
  ~ In c new -> ~ In c (replace [c] new s).
Proof.
  intros Hn. unfold replace. induction s as [|x r IH]; simpl; [tauto|].
  destruct (N.eqb_spec c x) as [->|Hne]; simpl.
  - intros H. apply in_app_or in H as [H|H]; tauto.
  - intros [H|H]; [congruence | tauto].
Qed.

Lemma contains_single (c : N) (s : str) : contains [c] s = true -> In c s.
Proof.
  intros H. apply contains_iff in H as (pre & post & ->).
  apply in_or_app. right. now left.
Qed.

Lemma replace_absent (old new s : str) :
  contains old s = false -> replace old new s = s.
Proof.
  unfold replace. induction s as [|x r IH]; [reflexivity|].
  rewrite contains_unfold, orb_false_iff. intros [H1 H2].
  cbn [replace_go]. rewrite H1. now rewrite (IH H2).
Qed.

Lemma replace_apostrophes_cons (c x : N) (r : str) :
  replace apostrophes DQUOTE (c :: x :: r) =
  if (39 =? c)%N && (39 =? x)%N then 34%N :: replace apostrophes DQUOTE r
  else c :: replace apostrophes DQUOTE (x :: r).
Proof.
  unfold replace, apostrophes, DQUOTE. cbn [replace_go startswith].
  rewrite andb_true_r.
  destruct ((39 =? c)%N && (39 =? x)%N); reflexivity.
Qed.

Lemma replace_apostrophes_head (x : N) (r : str) :
  (39 =? x)%N = false ->
  replace apostrophes DQUOTE (x :: r) = x :: replace apostrophes DQUOTE r.
Proof.
  intros H. unfold replace, apostrophes, DQUOTE. cbn [replace_go startswith].
  now rewrite H.
Qed.

Lemma replace_apostrophes_clean (s : str) :
  contains apostrophes (replace apostrophes DQUOTE s) = false /\
  forall c, contains apostrophes (replace apostrophes DQUOTE (c :: s)) = false.
Proof.
  induction s as [|x r [IH1 IH2]].
  - split; [reflexivity|]. intros c.
    destruct (N.eqb_spec 39 c) as [<-|Hc]; [reflexivity|].
    apply N.eqb_neq in Hc.
    unfold replace, apostrophes, DQUOTE. cbn [replace_go startswith].
    rewrite Hc. cbn [andb contains startswith]. now rewrite Hc.
  - split; [apply IH2|]. intros c.
    rewrite replace_apostrophes_cons.
    destruct (N.eqb_spec 39 c) as [<-|Hc]; cbn [andb].
    + destruct (N.eqb_spec 39 x) as [<-|Hx].
      * rewrite contains_unfold. unfold apostrophes at 1. cbn [startswith].
        cbn [N.eqb Pos.eqb andb orb]. exact IH1.
      * rewrite contains_unfold, (IH2 x), orb_false_r.
        rewrite replace_apostrophes_head by now apply N.eqb_neq.
        unfold apostrophes. cbn [startswith].
        replace (39 =? x)%N with false by (symmetry; now apply N.eqb_neq).
        now rewrite andb_false_r.
    + rewrite contains_unfold, (IH2 x), orb_false_r.
      unfold apostrophes. cbn [startswith].
      replace (39 =? c)%N with false by (symmetry; now apply N.eqb_neq).
      reflexivity.
Qed.

Lemma normalize_clean (name : str) :
  ~ In 8220%N (normalize_poet_name name) /\
  ~ In 8221%N (normalize_poet_name name) /\
  contains apostrophes (normalize_poet_name name) = false.
Proof.
  unfold normalize_poet_name.
  change (u "“") with [8220%N]; change (u "”") with [8221%N];
    change (u "''") with apostrophes.
  split; [|split].
  - intros H. apply In_strip, In_replace_go in H as [H|[H|[]]]; [|discriminate].
    apply In_replace_go in H as [H|[H|[]]]; [|discriminate].
    revert H. apply replace_single_removes. intros [H|[]]. discriminate.
  - intros H. apply In_strip, In_replace_go in H as [H|[H|[]]]; [|discriminate].
    revert H. apply replace_single_removes. intros [H|[]]. discriminate.
  - destruct (contains apostrophes (strip _)) eqn:E; [|reflexivity].
    apply contains_iff, Substring_strip, contains_iff in E.
    now rewrite (proj1 (replace_apostrophes_clean _)) in E.
Qed.

Lemma not_In_contains (c : N) (s : str) : ~ In c s -> contains [c] s = false.
Proof.
  intros H. destruct (contains [c] s) eqn:E; [|reflexivity].
  now apply contains_single in E.
Qed.

End Normalization.

(** X15: a normalized owner name holds no curly double quote, opening or
    closing, and no two straight apostrophes in a row, and it has no white
    space at either end. *)
Theorem normalize_poet_name_normal_form (name : str) :
  ~ Substring (u "“") (normalize_poet_name name) /\
  ~ Substring (u "”") (normalize_poet_name name) /\
  ~ Substring (u "''") (normalize_poet_name name) /\
  strip (normalize_poet_name name) = normalize_poet_name name.
Proof.
  destruct (normalize_clean name) as (H1 & H2 & H3).
  split; [|split; [|split]].
  - intros H. apply contains_iff in H. change (u "“") with [8220%N] in H.
    now apply contains_single in H.
  - intros H. apply contains_iff in H. change (u "”") with [8221%N] in H.
    now apply contains_single in H.
  - intros H. apply contains_iff in H.
    change (u "''") with apostrophes in H. congruence.
  - unfold normalize_poet_name. apply strip_idempotent.
Qed.

(** X16: normalization is idempotent: normalizing a normalized name changes
    nothing. *)
Theorem normalize_poet_name_idempotent (name : str) :
  normalize_poet_name (normalize_poet_name name) = normalize_poet_name name.
Proof.
  destruct (normalize_clean name) as (H1 & H2 & H3).
  unfold normalize_poet_name at 1.
  change (u "“") with [8220%N]; change (u "”") with [8221%N];
    change (u "''") with apostrophes.
  rewrite (@replace_absent [8220%N] DQUOTE _ (@not_In_contains _ _ H1)).
  rewrite (@replace_absent [8221%N] DQUOTE _ (@not_In_contains _ _ H2)).
  rewrite (@replace_absent apostrophes DQUOTE _ H3).
  unfold normalize_poet_name. apply strip_idempotent.
Qed.

(** ** Blank names in the callers, and the shape of the collected links *)

(** X17: the missing first token of a blank owner name reaches the callers
    of the discovery functions: once the page has been retrieved,
    [scrape_work] and [scrape_poet] raise [IndexError]; they retrieve
    nothing else, and [scrape_poet] writes no file. *)
Theorem blank_owner_in_callers (W : World) (poet_name title url : str)
  (soup : BeautifulSoup) :
  is_blank poet_name = true ->
  http_get W url = Ok soup ->
  scrape_work W poet_name title url = ([EGet url], Raise IndexError) /\
  scrape_poet W poet_name url = ([EGet url], Raise IndexError).
Proof.
  intros Hb Hg. split.
  - now rewrite scrape_work_eq, get_work_parts_eq, Hg, (first_token_blank _ Hb).
  - now rewrite scrape_poet_eq, get_poet_works_eq, Hg, (first_token_blank _ Hb).
Qed.

Lemma blank_owner_in_callers_witness :
  scrape_work index_site [32%N] (u "आँसू") work_url =
    ([EGet work_url], Raise IndexError) /\
  scrape_poet index_site [32%N] work_url = ([EGet work_url], Raise IndexError).
Proof.
  apply (@blank_owner_in_callers index_site [32%N] (u "आँसू") work_url multi_page);
    vm_compute; reflexivity.
Defined.

(** X18: every link collected as a work or as a part has a title that
    contains the separator, is no navigation text and has no white space at
    either end. *)
Theorem collected_titles_follow_pattern (W : World) (poet_name url : str)
  (works : list (str * str)) :
  snd (get_poet_works W poet_name url) = Ok works ->
  Forall (fun e => Substring (u " / ") (fst e) /\
                   is_navigation_text (fst e) = false /\
                   strip (fst e) = fst e) works.
Proof.
  rewrite get_poet_works_eq. cbn [snd].
  destruct (http_get W url) as [soup|]; [|discriminate].
  destruct (index_first _) as [tok|]; [|discriminate].
  intros H. injection H as <-. apply Forall_forall. intros e He.
  apply in_map_iff in He as (a & <- & Ha). apply filter_In in Ha as [_ Ha].
  unfold accepts, passes_classifier, matches_pattern in Ha.
  rewrite !andb_true_iff, negb_true_iff in Ha.
  destruct Ha as [[_ Hnav] [Hsep _]]. cbn [link_entry fst].
  split; [now apply contains_iff|]. split; [exact Hnav|].
  unfold link_text. apply strip_idempotent.
Qed.

Lemma collected_titles_follow_pattern_witness :
  Forall (fun e => Substring (u " / ") (fst e) /\
                   is_navigation_text (fst e) = false /\
                   strip (fst e) = fst e) [link_entry work_link].
Proof.
  apply (@collected_titles_follow_pattern index_site mahadevi poet_page_url).
  vm_compute. reflexivity.
Defined.

(** ** Concrete runs *)

Example u_devanagari : u "पृष्ठ" = [2346; 2371; 2359; 2381; 2336]%N.
Proof. reflexivity. Qed.

Example strip_ex : strip (u "  a b  ") = u "a b".
Proof. reflexivity. Qed.

Example split_ws_ex : split_ws (u " ab  c ") = [u "ab"; u "c"].
Proof. reflexivity. Qed.

Example split_on_ex : split_on SLASH (u "a/b//") = [u "a"; u "b"; []; []].
Proof. reflexivity. Qed.

Example replace_ex : replace (u "''") (u "x") (u "a'''b''") = u "ax'bx".
Proof. reflexivity. Qed.

Example matches_title_and_author :
  accepts (u "महादेवी") mahadevi (anchor (u "आँसू / महादेवी वर्मा") (u "/kk/x")) = true.
Proof. vm_compute. reflexivity. Qed.

Example rejects_without_separator :
  accepts (u "महादेवी") mahadevi (anchor (u "आँसू") (u "/kk/x")) = false.
Proof. vm_compute. reflexivity. Qed.

Example rejects_other_author :
  accepts (u "महादेवी") mahadevi (anchor (u "आँसू / कोई और") (u "/kk/x")) = false.
Proof. vm_compute. reflexivity. Qed.

Example main_on_index_site :
  fst (main index_site) =
  [EGet INDEX_URL; EGet poet_page_url; EGet work_url;
   EGet part1_url; ESleep; EGet part2_url; ESleep; ESleep;
   EOpen (u "new/poets/महादेवी वर्मा.json");
   EWrite (u "new/poets/महादेवी वर्मा.json")
     (VDict [("poet"%string, VStr mahadevi);
             ("works"%string,
              VList [VDict (multipart_record (u "आँसू / महादेवी वर्मा")
                       [part_record (u "भाग 1 / महादेवी वर्मा") (u "पहला");
                        part_record (u "भाग 2 / महादेवी वर्मा") (u "दूसरा")])])]);
   ESleep].
Proof. vm_compute. reflexivity. Qed.
